(** * AI Interview Question Generator: the response parser, the generate
    handler, the filters and the JSON export of [app.py].

    The Python program is embedded shallowly: Python [str] values are lists of
    Unicode code points, Python [int] values are [Z], the Streamlit calls that
    show a message and the session state are threaded through a small state
    monad, and the two external services (the Gemini client and the PDF
    reader) are arguments of the functions that call them. *)

From Stdlib Require Import ZArith NArith Ascii String DecimalString.
From stdpp Require Import base numbers list option gmap.

Local Open Scope Z_scope.

(** ** Python strings and the built-ins the program uses *)

Module Py.

(** A Python [str] is a sequence of code points. *)
Abbreviation char := N.
Abbreviation str := (list N).

Definition of_string (s : string) : str :=
  N_of_ascii <$> list_ascii_of_string s.

(** A one-character literal such as ['['] of the source. *)
Definition ch (a : ascii) : char := N_of_ascii a.

(** [str.isspace] for one code point, which is what [str.strip()] tests:
    CPython's [Py_UNICODE_ISSPACE]. *)
Definition isspace (c : char) : bool :=
  ((0x09 <=? c) && (c <=? 0x0D) ||
   (0x1C <=? c) && (c <=? 0x20) ||
   (c =? 0x85) || (c =? 0xA0) || (c =? 0x1680) ||
   (0x2000 <=? c) && (c <=? 0x200A) ||
   (c =? 0x2028) || (c =? 0x2029) || (c =? 0x202F) ||
   (c =? 0x205F) || (c =? 0x3000))%N.

(** [s.lstrip()] *)
Fixpoint lstrip (s : str) : str :=
  match s with
  | [] => []
  | c :: t => if isspace c then lstrip t else s
  end.

(** [s.rstrip()] *)
Fixpoint rstrip (s : str) : str :=
  match s with
  | [] => []
  | c :: t =>
      match rstrip t with
      | [] => if isspace c then [] else [c]
      | r => c :: r
      end
  end.

(** [s.strip()] *)
Definition strip (s : str) : str := lstrip (rstrip s).

(** [c in s] for a one-character [c]. *)
Definition contains (c : char) (s : str) : bool := bool_decide (c ∈ s).

(** [s.find(c)] for a one-character [c]: the least index holding [c],
    and [-1] when there is none. *)
Definition find (c : char) (s : str) : Z :=
  match list_find (λ x, x = c) s with
  | Some (i, _) => Z.of_nat i
  | None => -1
  end.

(** [s.split(sep)] for a one-character [sep]; the result is never empty. *)
Fixpoint split (sep : char) (s : str) : list str :=
  match s with
  | [] => [[]]
  | c :: t =>
      if decide (c = sep) then [] :: split sep t
      else match split sep t with
           | [] => [[c]]
           | p :: ps => (c :: p) :: ps
           end
  end.

(** How a slice bound is brought into range: a negative bound counts from
    the end, and both ends are clipped to [0, len]. *)
Definition clip (len i : Z) : Z :=
  if i <? 0 then Z.max 0 (len + i) else Z.min i len.

(** [l[lo:hi]], [l[lo:]] and [l[:hi]] *)
Definition slice {A} (l : list A) (lo hi : Z) : list A :=
  let len := Z.of_nat (length l) in
  let a := clip len lo in
  let b := clip len hi in
  take (Z.to_nat (b - a)) (drop (Z.to_nat a) l).

Definition slice_from {A} (l : list A) (lo : Z) : list A :=
  slice l lo (Z.of_nat (length l)).

Definition slice_to {A} (l : list A) (hi : Z) : list A :=
  slice l 0 hi.

(** [str(n)] for an [int]. *)
Definition str_of_int (n : Z) : str :=
  of_string (NilZero.string_of_int (Z.to_int n)).

End Py.

Import Py.

(** [$"abc"] is the Python literal ['abc']. *)
Notation "$ s" := (of_string s%string) (at level 1, format "$ s").

(** ** The data model *)

Record InterviewQuestion := {
  category : str;
  question : str;
  difficulty : str;
  focus_area : str
}.

#[global] Instance InterviewQuestion_eq_dec : EqDecision InterviewQuestion.
Proof. solve_decision. Defined.

(** ** Streamlit: the messages shown and the session state *)

Inductive level := Error | Warning | Info | Success.

(** [st.session_state]: a key is absent ([None]) or bound. *)
Record session_state := {
  generated_questions : option (list InterviewQuestion);
  show_questions : option bool
}.

Record ui := {
  shown : list (level * str);
  session : session_state
}.

(** Code that shows messages or touches the session state. *)
Definition UI (A : Type) : Type := ui → A * ui.

#[global] Instance UI_ret : MRet UI := λ A a s, (a, s).
#[global] Instance UI_bind : MBind UI :=
  λ A B k m s, let '(a, s') := m s in k a s'.

Definition st_show (lvl : level) (msg : str) : UI unit :=
  λ s, ((), {| shown := shown s ++ [(lvl, msg)]; session := session s |}).

Definition st_error := st_show Error.
Definition st_warning := st_show Warning.
Definition st_info := st_show Info.
Definition st_success := st_show Success.

Definition set_session (new : session_state) : UI unit :=
  λ s, ((), {| shown := shown s; session := new |}).

(** ** [parse_gemini_questions] *)

(** [len(l)] *)
Definition len {A} (l : list A) : Z := Z.of_nat (length l).

Definition fallback_questions : list InterviewQuestion := [
  Build_InterviewQuestion $"Technical"
    $"Tell me about your technical background and the technologies you're most comfortable with."
    $"Easy" $"General Technical";
  Build_InterviewQuestion $"Experience"
    $"Walk me through a challenging project you've worked on recently."
    $"Medium" $"Project Experience";
  Build_InterviewQuestion $"Behavioral"
    $"How do you approach learning new technologies or skills?"
    $"Easy" $"Learning Ability";
  Build_InterviewQuestion $"Technical"
    $"Describe your experience with the main technologies mentioned in this job description."
    $"Medium" $"Job-Specific Skills";
  Build_InterviewQuestion $"Behavioral"
    $"Tell me about a time you had to solve a problem under pressure."
    $"Medium" $"Problem Solving";
  Build_InterviewQuestion $"Experience"
    $"What's the most complex technical challenge you've faced and how did you overcome it?"
    $"Hard" $"Technical Problem Solving";
  Build_InterviewQuestion $"Technical"
    $"How do you ensure code quality and maintainability in your projects?"
    $"Medium" $"Best Practices";
  Build_InterviewQuestion $"Behavioral"
    $"Describe a situation where you had to collaborate with team members who had different opinions."
    $"Medium" $"Teamwork";
  Build_InterviewQuestion $"Experience"
    $"Tell me about a time you had to quickly adapt to new requirements or changes."
    $"Medium" $"Adaptability";
  Build_InterviewQuestion $"Technical"
    $"What development tools and methodologies do you prefer and why?"
    $"Easy" $"Development Process"
].

(** The body of [for line in lines]: the list [questions] before the line
    and after it.  Nothing in the [try] block can raise except the indexing
    of [parts], which the length test guards; were it to raise, the
    [except] clause skips the line. *)
Definition parse_line (questions : list InterviewQuestion) (line : str)
  : list InterviewQuestion :=
  let line := strip line in
  if bool_decide (line = []) then questions
  else if contains (ch "[") line && contains (ch "]") line
          && contains (ch "|") line then
    let bracket_start := find (ch "[") line in
    let bracket_end := find (ch "]") line in
    if bool_decide (bracket_start ≠ -1) && bool_decide (bracket_end ≠ -1) then
      let bracket_content := slice line (bracket_start + 1) bracket_end in
      let question_text := strip (slice_from line (bracket_end + 1)) in
      let parts := strip <$> split (ch "|") bracket_content in
      if bool_decide (3 ≤ len parts) && bool_decide (question_text ≠ []) then
        match parts !! 0%nat, parts !! 1%nat, parts !! 2%nat with
        | Some category, Some difficulty, Some focus_area =>
            questions ++ [ {| category := category;
                              question := question_text;
                              difficulty := difficulty;
                              focus_area := focus_area |} ]
        | _, _, _ => questions
        end
      else questions
    else questions
  else questions.

(** The [for] loop over the lines of the response. *)
Definition parse_lines (response_text : str) : list InterviewQuestion :=
  let lines := split (ch "010") response_text in
  foldl parse_line [] lines.

(** [if len(questions) < 3: ...]: the fallback step. *)
Definition add_fallback (questions : list InterviewQuestion)
    (num_questions : Z) : UI (list InterviewQuestion) :=
  if bool_decide (len questions < 3) then
    st_warning $"Using fallback questions due to parsing issues";;
    mret (questions ++
          slice_to fallback_questions (Z.max 0 (num_questions - len questions)))
  else mret questions.

(** [return questions[:num_questions] if questions else []] *)
Definition truncate (questions : list InterviewQuestion) (num_questions : Z)
  : list InterviewQuestion :=
  if bool_decide (questions ≠ []) then slice_to questions num_questions else [].

Definition parse_gemini_questions (response_text : str) (num_questions : Z)
  : UI (list InterviewQuestion) :=
  questions ← add_fallback (parse_lines response_text) num_questions;
  mret (truncate questions num_questions).

(** ** [generate_questions_with_gemini] *)

Definition nl : str := [ch "010"].

(** What a call into an external library gives: a value, or an exception
    [e], kept as the text [str(e)]. *)
Inductive outcome (A : Type) :=
  | Returned (a : A)
  | Raised (e : str).
Arguments Returned {A} a.
Arguments Raised {A} e.

(** The f-string [prompt]. *)
Definition build_prompt (resume_text job_description skills : str)
    (num_questions : Z) : str :=
  nl ++
  $"You are an expert technical interviewer. Based on the provided resume, job description, and required skills, generate " ++ str_of_int num_questions ++ $" highly relevant interview questions." ++ nl ++
  nl ++
  $"RESUME CONTENT:" ++ nl ++
  slice_to resume_text 2000 ++ nl ++
  nl ++
  $"JOB DESCRIPTION:" ++ nl ++
  job_description ++ nl ++
  nl ++
  $"REQUIRED SKILLS:" ++ nl ++
  skills ++ nl ++
  nl ++
  $"Generate exactly " ++ str_of_int num_questions ++ $" interview questions. For each question, format it as:" ++ nl ++
  $"[Category|Difficulty|Focus Area] Question text" ++ nl ++
  nl ++
  $"Where:" ++ nl ++
  $"- Category: Technical, Behavioral, or Experience" ++ nl ++
  $"- Difficulty: Easy, Medium, or Hard" ++ nl ++
  $"- Focus Area: The specific skill or area being tested" ++ nl ++
  nl ++
  $"Examples:" ++ nl ++
  $"[Technical|Medium|Python Programming] Can you explain the difference between list comprehensions and generator expressions in Python?" ++ nl ++
  $"[Behavioral|Easy|Team Collaboration] Tell me about a time when you had to work with a difficult team member." ++ nl ++
  $"[Experience|Hard|Problem Solving] Describe the most challenging technical problem you've solved and your approach." ++ nl ++
  nl ++
  $"Requirements for the questions:" ++ nl ++
  $"1. Make them specific to the candidate's background from their resume" ++ nl ++
  $"2. Ensure they test skills mentioned in the job description" ++ nl ++
  $"3. Include a mix of technical and behavioral questions" ++ nl ++
  $"4. Vary the difficulty levels appropriately" ++ nl ++
  $"5. Make them practical and relevant to the role" ++ nl ++
  nl ++
  $"Generate " ++ str_of_int num_questions ++ $" questions now in the specified format:" ++ nl.

(** The Gemini client is the argument [gemini]: from the API key and the
    prompt to the text of the response, or to the exception that
    [genai.configure], [model.generate_content] or [response.text] raises. *)
Definition generate_questions_with_gemini (gemini : str → str → outcome str)
    (resume_text job_description skills : str) (num_questions : Z)
    (api_key : str) : UI (list InterviewQuestion) :=
  match gemini api_key
          (build_prompt resume_text job_description skills num_questions) with
  | Returned text => parse_gemini_questions text num_questions
  | Raised e =>
      st_error ($"Error generating questions with Gemini: " ++ e);;
      mret []
  end.

(** ** [extract_text_from_pdf] *)

(** An uploaded file is what [PdfReader] makes of it: the text of each page,
    or the exception raised while reading. *)
Definition pdf_text (pages : list str) : str :=
  foldl (λ text page, text ++ page) [] pages.

Definition extract_text_from_pdf (uploaded_file : outcome (list str))
  : UI (option str) :=
  match uploaded_file with
  | Returned pages => mret (Some (pdf_text pages))
  | Raised e => st_error ($"Error reading PDF: " ++ e);; mret None
  end.

(** ** [main]: the handler of the generate button *)

Record form := {
  api_key : str;
  num_questions : Z;
  technical_focus : str;
  uploaded_resume : option (outcome (list str));
  job_description : str;
  skills_input : str;
  experience_level : str;
  interview_type : str;
  company_info : str
}.

Definition cross_mark : char := 0x274C%N.
Definition check_mark : char := 0x2705%N.
Definition light_bulb : char := 0x1F4A1%N.

(** The block under [if generate_button:]. *)
Definition generate_clicked (gemini : str → str → outcome str) (f : form)
  : UI unit :=
  if bool_decide (api_key f = [])
     || bool_decide (api_key f = $"YOUR_GEMINI_API_KEY_HERE") then
    st_error (cross_mark :: $" Gemini API key not configured");;
    st_info (light_bulb ::
             $" Please configure your API key in the secrets.toml file")
  else match uploaded_resume f with
  | None => st_error (cross_mark :: $" Please upload your resume")
  | Some uploaded =>
  if bool_decide (strip (job_description f) = []) then
    st_error (cross_mark :: $" Please enter the job description")
  else if bool_decide (strip (skills_input f) = []) then
    st_error (cross_mark :: $" Please enter the required skills")
  else
    resume_text ← extract_text_from_pdf uploaded;
    match resume_text with
    | None | Some [] =>
        st_error (cross_mark :: $" Could not extract text from resume."
                    ++ $" Please ensure it's a readable PDF.")
    | Some resume_text =>
        let enhanced_prompt :=
          nl ++ $"        Additional Context:" ++ nl ++
          $"        - Experience Level: " ++ experience_level f ++ nl ++
          $"        - Interview Type: " ++ interview_type f ++ nl ++
          $"        - Technical Focus: " ++ technical_focus f ++ nl ++
          $"        " in
        let enhanced_prompt :=
          if bool_decide (company_info f ≠ []) then
            enhanced_prompt ++ nl ++ $"- Company/Industry: " ++ company_info f
          else enhanced_prompt in
        questions ← generate_questions_with_gemini gemini
                      (resume_text ++ enhanced_prompt) (job_description f)
                      (skills_input f) (num_questions f) (api_key f);
        if bool_decide (questions ≠ []) then
          st_success (check_mark :: $" Successfully generated "
                        ++ str_of_int (len questions)
                        ++ $" interview questions!");;
          set_session {| generated_questions := Some questions;
                         show_questions := Some true |}
        else
          st_error (cross_mark :: $" Failed to generate questions."
                      ++ $" Please try again or check your inputs.")
    end
  end.

(** ** [main]: the filters *)

Definition apply_filters (questions : list InterviewQuestion)
    (difficulty_filter category_filter : str) : list InterviewQuestion :=
  let filtered_questions := questions in
  let filtered_questions :=
    if bool_decide (difficulty_filter ≠ $"All") then
      filter (λ q, difficulty q = difficulty_filter) filtered_questions
    else filtered_questions in
  let filtered_questions :=
    if bool_decide (category_filter ≠ $"All") then
      filter (λ q, category q = category_filter) filtered_questions
    else filtered_questions in
  filtered_questions.

(** ** [main]: the JSON export *)

#[local] Set Warnings "-register-all".

(** The values handed to [json.dumps]: integers, strings, lists, and
    dictionaries with their keys in insertion order. *)
Inductive json :=
  | JInt (n : Z)
  | JStr (s : str)
  | JList (items : list json)
  | JDict (fields : list (str * json)).

(** The list comprehension over [enumerate(filtered_questions)]; the standard
    library's [json.dumps(..., indent=2)] then writes this value out. *)
Definition export_objects (filtered_questions : list InterviewQuestion)
  : list json :=
  imap (λ i q,
    JDict [ ($"question_number", JInt (Z.of_nat i + 1));
            ($"category", JStr (category q));
            ($"question", JStr (question q));
            ($"difficulty", JStr (difficulty q));
            ($"focus_area", JStr (focus_area q)) ])
    filtered_questions.

Definition questions_json (filtered_questions : list InterviewQuestion)
  : json := JList (export_objects filtered_questions).

(** [d[key]] on a dictionary value. *)
Definition dict_get (key : str) (d : json) : option json :=
  match d with
  | JDict fields => (λ p, p.2.2) <$> list_find (λ kv, kv.1 = key) fields
  | _ => None
  end.

(** ** The specification's reading of a line

    These definitions follow the words of the specification, on the line as
    it stands in the response (before any trimming); the theorems compare
    them with [parse_line]. *)

Module Spec.

(** The line contains all three of ['['], [']'] and ['|']. *)
Definition candidate (line : str) : Prop :=
  ch "[" ∈ line ∧ ch "]" ∈ line ∧ ch "|" ∈ line.

(** The substring strictly between the first ['['] and the first [']']. *)
Definition header (line : str) : str :=
  slice line (find (ch "[") line + 1) (find (ch "]") line).

(** The header split on ['|'], each part trimmed. *)
Definition header_parts (line : str) : list str :=
  strip <$> split (ch "|") (header line).

(** The remainder of the line after the first [']'], and its trimmed form,
    the question text. *)
Definition text_after (line : str) : str :=
  slice_from line (find (ch "]") line + 1).

Definition question_text (line : str) : str := strip (text_after line).

(** A valid line: a candidate whose header has at least three parts and
    whose question text is not empty. *)
Definition valid_line (line : str) : Prop :=
  candidate line ∧ (3 ≤ length (header_parts line))%nat
  ∧ question_text line ≠ [].

#[global] Instance valid_line_dec line : Decision (valid_line line).
Proof. unfold valid_line, candidate. apply _. Defined.

(** The record of a valid line: the first three parts, in order, and the
    question text. *)
Definition record_of (line : str) : InterviewQuestion :=
  {| category := default [] (header_parts line !! 0%nat);
     question := question_text line;
     difficulty := default [] (header_parts line !! 1%nat);
     focus_area := default [] (header_parts line !! 2%nat) |}.

(** The lines of a response, and its valid lines in their order. *)
Definition lines (response_text : str) : list str :=
  split (ch "010") response_text.

Definition valid_lines (response_text : str) : list str :=
  filter valid_line (lines response_text).

(** A filter selection accepts a field: the selection is ['All'], or the
    field equals it. *)
Definition selects (selection field : str) : Prop :=
  selection = $"All" ∨ field = selection.

#[global] Instance selects_dec selection field :
  Decision (selects selection field).
Proof. unfold selects. apply _. Defined.

End Spec.

(** A session to run examples in, as [__main__] sets it up. *)
Definition fresh : ui :=
  {| shown := [];
     session := {| generated_questions := Some []; show_questions := Some false |} |}.

(** ** [main]: the resume preview *)

(** The text of the preview box, shown when the extracted text is not
    empty. *)
Definition preview_text (resume_text : str) : str :=
  if bool_decide (500 < len resume_text)
  then slice_to resume_text 500 ++ $"..."
  else resume_text.

(** ** [main]: the display of the stored questions *)

(** [st.session_state.get('show_questions') and
    st.session_state.get('generated_questions')], taken as a condition. *)
Definition display_condition (s : session_state) : bool :=
  match show_questions s, generated_questions s with
  | Some true, Some (_ :: _) => true
  | _, _ => false
  end.

(** The three category metrics. *)
Definition technical_count (questions : list InterviewQuestion) : Z :=
  len (filter (λ q, category q = $"Technical") questions).

Definition behavioral_count (questions : list InterviewQuestion) : Z :=
  len (filter (λ q, category q = $"Behavioral") questions).

Definition experience_count (questions : list InterviewQuestion) : Z :=
  len (filter (λ q, category q = $"Experience") questions).

(** [set([q.category for q in questions])]: the categories offered by the
    category selector besides ['All'].  The order in which [list(...)] lays
    them out is not modelled. *)
Definition category_options (questions : list InterviewQuestion)
  : gset str := list_to_set (category <$> questions).

(** The notice under the filters. *)
Definition show_filter_info (questions filtered_questions
    : list InterviewQuestion) : UI unit :=
  if bool_decide (len filtered_questions ≠ len questions) then
    st_info ($"Showing " ++ str_of_int (len filtered_questions) ++ $" of "
               ++ str_of_int (len questions) ++ $" questions")
  else mret ().

(** ** [main]: the text exports *)

(** [enumerate(l, start)] *)
Definition enumerate {A} (start : Z) (l : list A) : list (Z * A) :=
  imap (λ i x, (start + Z.of_nat i, x)) l.

(** The text of the copy box. *)
Definition formatted_text (filtered_questions : list InterviewQuestion)
  : str :=
  foldl (λ formatted_text iq,
           let '(i, q) := iq in
           let formatted_text :=
             formatted_text ++ $"Q" ++ str_of_int i ++ $": " ++ question q
               ++ nl in
           formatted_text ++ $"Category: " ++ category q
             ++ $" | Difficulty: " ++ difficulty q
             ++ $" | Focus: " ++ focus_area q ++ nl ++ nl)
        [] (enumerate 1 filtered_questions).

(** The study guide. *)
Definition questions_text (filtered_questions : list InterviewQuestion)
  : str :=
  let questions_text := $"INTERVIEW PREPARATION QUESTIONS" ++ nl in
  let questions_text := questions_text ++ $"Generated: Today" ++ nl in
  let questions_text :=
    questions_text ++ $"Total Questions: "
      ++ str_of_int (len filtered_questions) ++ nl in
  let questions_text :=
    questions_text ++ replicate 60 (ch "=") ++ nl ++ nl in
  foldl (λ questions_text iq,
           let '(i, q) := iq in
           let questions_text :=
             questions_text ++ $"QUESTION " ++ str_of_int i ++ $":" ++ nl in
           let questions_text :=
             questions_text ++ question q ++ nl ++ nl in
           let questions_text :=
             questions_text ++ $"Details: " ++ category q ++ $" | "
               ++ difficulty q ++ $" | " ++ focus_area q ++ nl ++ nl in
           let questions_text :=
             questions_text ++ $"PREPARATION NOTES:" ++ nl in
           let questions_text :=
             questions_text ++ replicate 40 (ch "_") ++ nl ++ nl ++ nl in
           questions_text ++ replicate 60 (ch "=") ++ nl ++ nl)
        questions_text (enumerate 1 filtered_questions).

(** ** The script as Streamlit runs it *)

(** The block under [if __name__ == "__main__":], before [main()]. *)
Definition init_session_state : UI unit :=
  λ s, ((), {| shown := shown s;
               session :=
                 {| generated_questions :=
                      match generated_questions (session s) with
                      | None => Some []
                      | Some questions => Some questions
                      end;
                    show_questions :=
                      match show_questions (session s) with
                      | None => Some false
                      | Some b => Some b
                      end |} |}).

(** The body of the clear button: both keys are deleted. *)
Definition clear_questions : UI unit :=
  set_session {| generated_questions := None; show_questions := None |}.

(** What the user did to trigger a run of the script: pressed the generate
    button (with the form as filled in and the Gemini client as it will
    answer), pressed the clear button (with the filters as selected), or
    changed some other widget. *)
Inductive event :=
  | Generate (gemini : str → str → outcome str) (f : form)
  | Clear (difficulty_filter category_filter : str)
  | Refresh.

(** One run of the script, as far as the session state and the messages of
    the generate handler go.  The clear button exists only inside the display
    block and under [if filtered_questions:]; its [st.rerun()] starts the
    script again, with no button pressed. *)
Definition run_script (ev : event) : UI unit :=
  init_session_state;;
  match ev with
  | Generate gemini f => generate_clicked gemini f
  | Clear difficulty_filter category_filter =>
      λ s,
        if display_condition (session s)
           && bool_decide
                (apply_filters
                   (default [] (generated_questions (session s)))
                   difficulty_filter category_filter ≠ [])
        then (clear_questions;; init_session_state) s
        else ((), s)
  | Refresh => mret ()
  end.

(** A browser session that has not run the script yet. *)
Definition new_session : ui :=
  {| shown := [];
     session := {| generated_questions := None; show_questions := None |} |}.

(** ** The line format the prompt asks for

    [[Category|Difficulty|Focus Area] Question text], one question per
    line. *)

Definition format_line (q : InterviewQuestion) : str :=
  ch "[" :: category q ++ ch "|" :: difficulty q ++ ch "|" :: focus_area q
    ++ ch "]" :: ch " " :: question q.

(** ["\n".join(lines)] *)
Fixpoint join_lines (lines : list str) : str :=
  match lines with
  | [] => []
  | [line] => line
  | line :: rest => line ++ ch "010" :: join_lines rest
  end.

(** A header field that the format can carry: trimmed, on one line, without
    ['|'] and [']']. *)
Definition clean_field (x : str) : Prop :=
  strip x = x ∧ (ch "|" ∉ x) ∧ (ch "]" ∉ x) ∧ (ch "010" ∉ x).

(** A record that the format can carry: three clean fields and a question
    that is trimmed, not empty and on one line. *)
Definition well_formed (q : InterviewQuestion) : Prop :=
  clean_field (category q) ∧ clean_field (difficulty q)
  ∧ clean_field (focus_area q)
  ∧ question q ≠ [] ∧ strip (question q) = question q
  ∧ (ch "010" ∉ question q).

#[global] Instance well_formed_dec q : Decision (well_formed q).
Proof. unfold well_formed, clean_field. apply _. Defined.

(** Several runs of the script in a row, from a given state. *)
Definition run_all (evs : list event) (st : ui) : ui :=
  foldl (λ st ev, (run_script ev st).2) st evs.

(** What holds of the session state between two runs: both keys are bound,
    every stored question is well formed, and the show flag is set only
    when there is a question to show. *)
Definition session_ok (s : session_state) : Prop :=
  ∃ questions b,
    generated_questions s = Some questions ∧ show_questions s = Some b
    ∧ Forall well_formed questions ∧ (b = true → questions ≠ []).

(** ** The checks of the generate handler, taken together *)

Definition passes_checks (f : form) : Prop :=
  api_key f ≠ [] ∧ api_key f ≠ $"YOUR_GEMINI_API_KEY_HERE"
  ∧ strip (job_description f) ≠ [] ∧ strip (skills_input f) ≠ []
  ∧ ∃ pages, uploaded_resume f = Some (Returned pages) ∧ pdf_text pages ≠ [].

(** * Properties *)

(** ** Trimming *)

Lemma rstrip_spaces w : Forall (λ c, isspace c = true) w → rstrip w = [].
Proof.
  induction 1 as [|c w Hc _ IH]; simpl; [done|]. by rewrite IH, Hc.
Qed.

Lemma rstrip_app_spaces s w :
  Forall (λ c, isspace c = true) w → rstrip (s ++ w) = rstrip s.
Proof.
  intros Hw. induction s as [|c s IH]; simpl.
  - by apply rstrip_spaces.
  - by rewrite IH.
Qed.

Lemma rstrip_decomp s :
  ∃ w, s = rstrip s ++ w ∧ Forall (λ c, isspace c = true) w.
Proof.
  induction s as [|c s (w & Hs & Hw)]; simpl.
  - by exists [].
  - destruct (rstrip s) as [|d r] eqn:E.
    + simpl in Hs. subst w. destruct (isspace c) eqn:Hc.
      * exists (c :: s). auto.
      * by exists s.
    + exists w. split; [|done]. simpl. by rewrite Hs at 1.
Qed.

Lemma lstrip_decomp s :
  ∃ w, s = w ++ lstrip s ∧ Forall (λ c, isspace c = true) w.
Proof.
  induction s as [|c s (w & Hs & Hw)]; simpl.
  - by exists [].
  - destruct (isspace c) eqn:Hc.
    + exists (c :: w). simpl. rewrite <- Hs. auto.
    + by exists [].
Qed.

Lemma strip_decomp s :
  ∃ w1 w2, s = w1 ++ strip s ++ w2
    ∧ Forall (λ c, isspace c = true) w1 ∧ Forall (λ c, isspace c = true) w2.
Proof.
  destruct (rstrip_decomp s) as (w2 & Hs & H2).
  destruct (lstrip_decomp (rstrip s)) as (w1 & Hr & H1).
  exists w1, w2. unfold strip.
  split; [|done]. by rewrite (app_assoc w1), <- Hr.
Qed.

Lemma strip_app_spaces s w :
  Forall (λ c, isspace c = true) w → strip (s ++ w) = strip s.
Proof. intros Hw. unfold strip. by rewrite rstrip_app_spaces. Qed.

Lemma not_in_spaces c w :
  isspace c = false → Forall (λ c, isspace c = true) w → c ∉ w.
Proof.
  intros Hc Hw Hin. rewrite list.Forall_forall in Hw.
  specialize (Hw _ Hin). congruence.
Qed.

Lemma elem_of_strip c s : isspace c = false → c ∈ strip s ↔ c ∈ s.
Proof.
  intros Hc. destruct (strip_decomp s) as (w1 & w2 & Hs & H1 & H2).
  rewrite Hs at 2. rewrite !elem_of_app.
  pose proof (not_in_spaces c w1 Hc H1). pose proof (not_in_spaces c w2 Hc H2).
  tauto.
Qed.

(** ** [find] and slices *)

Lemma find_elem c s : c ∈ s → 0 ≤ find c s < len s.
Proof.
  intros Hin. unfold find.
  destruct (list_find_elem_of (λ x, x = c) s c Hin eq_refl) as [[i x] Hf].
  rewrite Hf. apply list_find_Some in Hf as (Hl & _ & _).
  apply lookup_lt_Some in Hl. unfold len. lia.
Qed.

Lemma find_not_elem c s : c ∉ s → find c s = -1.
Proof.
  intros Hc. unfold find.
  assert (list_find (λ x, x = c) s = None) as ->; [|done].
  apply list_find_None, list.Forall_forall. by intros x Hx ->.
Qed.

Lemma find_app_l c s w : c ∈ s → find c (s ++ w) = find c s.
Proof.
  intros Hin. unfold find.
  destruct (list_find_elem_of (λ x, x = c) s c Hin eq_refl) as [[i x] Hf].
  by rewrite (list_find_app_l _ _ w _ _ Hf), Hf.
Qed.

Lemma find_app_r c w s : c ∉ w → c ∈ s → find c (w ++ s) = len w + find c s.
Proof.
  intros Hw Hin. unfold find. rewrite list_find_app_r.
  - destruct (list_find_elem_of (λ x, x = c) s c Hin eq_refl) as [[i x] Hf].
    rewrite Hf. simpl. unfold len. lia.
  - apply list_find_None, list.Forall_forall. by intros x Hx ->.
Qed.

Lemma find_head c s : find c (c :: s) = 0.
Proof. unfold find. simpl. by rewrite decide_True. Qed.

Lemma slice_nonneg {A} (l : list A) a b :
  0 ≤ a → 0 ≤ b →
  slice l a b = take (Z.to_nat (b - a)) (drop (Z.to_nat a) l).
Proof.
  intros Ha Hb. unfold slice, clip.
  rewrite !(proj2 (Z.ltb_ge _ _)) by done.
  destruct (decide (a ≤ Z.of_nat (length l))) as [Hal|Hal].
  - rewrite (Z.min_l a) by done.
    destruct (decide (b ≤ Z.of_nat (length l))) as [Hbl|Hbl].
    + by rewrite (Z.min_l b).
    + rewrite (Z.min_r b) by lia.
      rewrite !take_ge; [done|rewrite length_drop; lia..].
  - rewrite (Z.min_r a) by lia.
    rewrite !drop_ge by lia. by rewrite !take_nil.
Qed.

Lemma slice_to_nonneg {A} (l : list A) n :
  0 ≤ n → slice_to l n = take (Z.to_nat n) l.
Proof.
  intros Hn. unfold slice_to. rewrite slice_nonneg by done.
  by rewrite Z.sub_0_r.
Qed.

Lemma slice_from_nonneg {A} (l : list A) a :
  0 ≤ a → slice_from l a = drop (Z.to_nat a) l.
Proof.
  intros Ha. unfold slice_from. rewrite slice_nonneg by lia.
  apply take_ge. rewrite length_drop. lia.
Qed.

Lemma slice_shift {A} (w1 t w2 : list A) a b :
  0 ≤ a → 0 ≤ b → b ≤ len t →
  slice (w1 ++ t ++ w2) (len w1 + a) (len w1 + b) = slice t a b.
Proof.
  unfold len. intros Ha Hb Hbt. rewrite !slice_nonneg by lia.
  replace (Z.to_nat (Z.of_nat (length w1) + a))
    with (length w1 + Z.to_nat a)%nat by lia.
  replace (Z.of_nat (length w1) + b - (Z.of_nat (length w1) + a))
    with (b - a) by lia.
  rewrite drop_app_add, drop_app, take_app.
  replace (Z.to_nat (b - a) - length (drop (Z.to_nat a) t))%nat with 0%nat
    by (rewrite length_drop; lia).
  by rewrite take_0, app_nil_r.
Qed.

Lemma slice_from_shift {A} (w1 t w2 : list A) a :
  0 ≤ a → a ≤ len t →
  slice_from (w1 ++ t ++ w2) (len w1 + a) = slice_from t a ++ w2.
Proof.
  unfold len. intros Ha Hat. rewrite !slice_from_nonneg by lia.
  replace (Z.to_nat (Z.of_nat (length w1) + a))
    with (length w1 + Z.to_nat a)%nat by lia.
  rewrite drop_app_add, drop_app.
  replace (Z.to_nat a - length t)%nat with 0%nat by lia. done.
Qed.

(** ** A line and its trimmed form read the same *)

Lemma header_pad w1 t w2 :
  Forall (λ c, isspace c = true) w1 → ch "[" ∈ t → ch "]" ∈ t →
  Spec.header (w1 ++ t ++ w2) = Spec.header t.
Proof.
  intros H1 Ho Hc. unfold Spec.header.
  rewrite (find_app_r (ch "[")), (find_app_r (ch "]"))
    by first [by apply not_in_spaces | by (apply elem_of_app; left)].
  rewrite (find_app_l (ch "[")), (find_app_l (ch "]")) by done.
  pose proof (find_elem _ _ Ho). pose proof (find_elem _ _ Hc).
  rewrite <- Z.add_assoc. apply slice_shift; lia.
Qed.

Lemma question_text_pad w1 t w2 :
  Forall (λ c, isspace c = true) w1 → Forall (λ c, isspace c = true) w2 →
  ch "]" ∈ t →
  Spec.question_text (w1 ++ t ++ w2) = Spec.question_text t.
Proof.
  intros H1 H2 Hc. unfold Spec.question_text, Spec.text_after.
  rewrite find_app_r
    by first [by apply not_in_spaces | by (apply elem_of_app; left)].
  rewrite find_app_l by done.
  pose proof (find_elem _ _ Hc).
  rewrite <- Z.add_assoc, slice_from_shift by lia.
  by apply strip_app_spaces.
Qed.

Lemma candidate_strip line : Spec.candidate (strip line) ↔ Spec.candidate line.
Proof. unfold Spec.candidate. by rewrite !elem_of_strip. Qed.

Lemma header_strip line :
  Spec.candidate line → Spec.header (strip line) = Spec.header line.
Proof.
  intros (Ho & Hc & _)%candidate_strip.
  destruct (strip_decomp line) as (w1 & w2 & Hs & H1 & H2).
  transitivity (Spec.header (w1 ++ strip line ++ w2)).
  - symmetry. by apply header_pad.
  - by rewrite <- Hs.
Qed.

Lemma question_text_strip line :
  Spec.candidate line →
  Spec.question_text (strip line) = Spec.question_text line.
Proof.
  intros (Ho & Hc & _)%candidate_strip.
  destruct (strip_decomp line) as (w1 & w2 & Hs & H1 & H2).
  transitivity (Spec.question_text (w1 ++ strip line ++ w2)).
  - symmetry. by apply question_text_pad.
  - by rewrite <- Hs.
Qed.

Lemma valid_line_strip line : Spec.valid_line (strip line) ↔ Spec.valid_line line.
Proof.
  unfold Spec.valid_line, Spec.header_parts. rewrite candidate_strip.
  split; intros (Hcand & Hparts & Hq); (split; [done|]).
  - by rewrite <- header_strip, <- question_text_strip.
  - by rewrite header_strip, question_text_strip.
Qed.

Lemma record_of_strip line :
  Spec.candidate line → Spec.record_of (strip line) = Spec.record_of line.
Proof.
  intros Hcand. unfold Spec.record_of, Spec.header_parts.
  by rewrite header_strip, question_text_strip.
Qed.

(** ** What [parse_line] does with a line *)

Lemma parse_line_trimmed qs line :
  parse_line qs line =
    if decide (Spec.valid_line (strip line))
    then qs ++ [Spec.record_of (strip line)] else qs.
Proof.
  unfold parse_line, contains, Spec.valid_line, Spec.record_of,
    Spec.header_parts, Spec.header, Spec.question_text, Spec.text_after,
    Spec.candidate.
  generalize (strip line) as t. intros t.
  set (parts := strip <$> split (ch "|") _).
  set (q := strip (slice_from t _)).
  case_bool_decide as Ht.
  { rewrite decide_False; [done|]. subst t. intros ((Ho & _) & _).
    by apply elem_of_nil in Ho. }
  destruct (decide (ch "[" ∈ t)) as [Ho|Ho];
    [rewrite (bool_decide_eq_true_2 _ Ho)
    |rewrite (bool_decide_eq_false_2 _ Ho), decide_False; [done|tauto]].
  destruct (decide (ch "]" ∈ t)) as [Hc|Hc];
    [rewrite (bool_decide_eq_true_2 _ Hc)
    |rewrite (bool_decide_eq_false_2 _ Hc), decide_False; [done|tauto]].
  destruct (decide (ch "|" ∈ t)) as [Hp|Hp];
    [rewrite (bool_decide_eq_true_2 _ Hp)
    |rewrite (bool_decide_eq_false_2 _ Hp), decide_False; [done|tauto]].
  pose proof (find_elem _ _ Ho). pose proof (find_elem _ _ Hc).
  rewrite !(bool_decide_eq_true_2 (find _ t ≠ -1)) by lia. simpl.
  destruct (decide (3 ≤ len parts)) as [H3|H3];
    [rewrite (bool_decide_eq_true_2 _ H3)
    |rewrite (bool_decide_eq_false_2 _ H3), decide_False;
       [done|unfold len in H3; intros (_ & ? & _); lia]].
  destruct (decide (q ≠ [])) as [Hq|Hq];
    [rewrite (bool_decide_eq_true_2 _ Hq)
    |rewrite (bool_decide_eq_false_2 _ Hq), decide_False; [done|tauto]].
  simpl. rewrite decide_True by (unfold len in H3; split_and!; [done..|lia|done]).
  destruct parts as [|c [|d [|f rest]]]; simpl in *;
    [unfold len in H3; simpl in H3; lia..|done].
Qed.

Lemma parse_line_spec qs line :
  parse_line qs line =
    if decide (Spec.valid_line line) then qs ++ [Spec.record_of line] else qs.
Proof.
  rewrite parse_line_trimmed.
  destruct (decide (Spec.valid_line line)) as [Hv|Hv].
  - rewrite decide_True by by apply valid_line_strip.
    rewrite record_of_strip; [done|]. by destruct Hv.
  - rewrite decide_False; [done|]. by rewrite valid_line_strip.
Qed.

Lemma foldl_parse_line acc lines :
  foldl parse_line acc lines =
    acc ++ (Spec.record_of <$> filter Spec.valid_line lines).
Proof.
  revert acc. induction lines as [|line lines IH]; intros acc; simpl.
  - by rewrite app_nil_r.
  - rewrite IH, parse_line_spec, filter_cons.
    destruct (decide (Spec.valid_line line)); [|done].
    by rewrite <- app_assoc.
Qed.

Lemma parse_lines_spec response_text :
  parse_lines response_text =
    Spec.record_of <$> Spec.valid_lines response_text.
Proof. unfold parse_lines. by rewrite foldl_parse_line. Qed.

(** ** The first bracket pair of a line *)

Lemma split_length_elem sep s : (2 ≤ length (split sep s))%nat → sep ∈ s.
Proof.
  induction s as [|c s IH]; simpl; [lia|].
  destruct (decide (c = sep)) as [->|Hne]; [intros _; left|].
  destruct (split sep s) as [|p ps]; simpl in *; [lia|].
  intros Hlen. right. by apply IH.
Qed.

(** When the first ['['] of a line comes before its first [']'], the header
    is what stands between the two and the rest of the line follows the
    bracket, whatever brackets it contains. *)
Lemma first_pair pre h post :
  ch "[" ∉ pre → ch "]" ∉ pre → ch "]" ∉ h →
  let line := pre ++ ch "[" :: h ++ ch "]" :: post in
  Spec.header line = h ∧ Spec.question_text line = strip post.
Proof.
  intros Ho Hc Hh line.
  assert (find (ch "[") line = len pre) as Hfo.
  { unfold line. rewrite find_app_r, find_head by (done || left). lia. }
  assert (find (ch "]") line = len pre + 1 + len h) as Hfc.
  { unfold line. rewrite find_app_r; [|done|right; apply elem_of_app; right; left].
    change (ch "[" :: h ++ ch "]" :: post)
      with ((ch "[" :: h) ++ ch "]" :: post).
    rewrite find_app_r, find_head; [|by apply not_elem_of_cons|left].
    unfold len. simpl. lia. }
  unfold Spec.header, Spec.question_text, Spec.text_after. rewrite Hfo, Hfc.
  unfold len, line. split.
  - rewrite slice_nonneg by lia.
    rewrite (cons_middle (ch "[")), app_assoc.
    rewrite drop_app_length' by (rewrite length_app; simpl; lia).
    apply take_app_length'. lia.
  - rewrite slice_from_nonneg by lia. f_equal.
    assert (pre ++ ch "[" :: h ++ ch "]" :: post
            = (pre ++ ch "[" :: h ++ [ch "]"]) ++ post) as ->
      by (rewrite <- app_assoc; simpl; by rewrite <- app_assoc).
    apply drop_app_length'.
    rewrite length_app. simpl. rewrite length_app. simpl. lia.
Qed.

(** ** The claims about single lines *)

(** C1. A line that contains ['['], [']'] and ['|'], whose header (the text
    strictly between the first ['['] and the first [']']) splits on ['|'] into
    at least three trimmed parts, and whose trimmed remainder after the first
    [']'] is not empty, makes the parser append exactly one record: its
    category, difficulty and focus area are the first three parts, the further
    parts are ignored, and its question is the trimmed remainder.  The line
    [[Technical|Hard|APIs] What is REST?] gives the record of the example. *)
Theorem C1_valid_line_emits_one_record :
  (∀ qs line c d f rest,
     Spec.candidate line →
     Spec.header_parts line = c :: d :: f :: rest →
     Spec.question_text line ≠ [] →
     parse_line qs line =
       qs ++ [ {| category := c; question := Spec.question_text line;
                  difficulty := d; focus_area := f |} ])
  ∧ parse_line [] $"[Technical|Hard|APIs] What is REST?" =
      [ {| category := $"Technical"; question := $"What is REST?";
           difficulty := $"Hard"; focus_area := $"APIs" |} ]
  ∧ parse_lines $"[Technical|Hard|APIs] What is REST?" =
      [ {| category := $"Technical"; question := $"What is REST?";
           difficulty := $"Hard"; focus_area := $"APIs" |} ].
Proof.
  split; [|split; reflexivity].
  intros qs line c d f rest Hcand Hparts Hq.
  rewrite parse_line_spec, decide_True.
  - unfold Spec.record_of. by rewrite Hparts.
  - split; [done|]. rewrite Hparts. split; [simpl; lia|done].
Qed.

(** The hypotheses of C1 hold on an example: a line with a fourth header part and leading blanks. *)
Lemma C1_witness :
  let line := $"  [Experience|Medium|Docker | 2024] Describe a deployment." in
  Spec.candidate line
  ∧ Spec.header_parts line = [$"Experience"; $"Medium"; $"Docker"; $"2024"]
  ∧ Spec.question_text line ≠ []
  ∧ parse_line [] line =
      [ {| category := $"Experience"; question := $"Describe a deployment.";
           difficulty := $"Medium"; focus_area := $"Docker" |} ].
Proof.
  intros line.
  assert (Spec.candidate line) as Hcand
    by (apply (bool_decide_unpack _); vm_compute; exact I).
  assert (Spec.header_parts line
          = [$"Experience"; $"Medium"; $"Docker"; $"2024"]) as Hparts
    by (vm_compute; reflexivity).
  assert (Spec.question_text line ≠ []) as Hq by (vm_compute; discriminate).
  split_and!; [done..|].
  exact (proj1 C1_valid_line_emits_one_record [] line _ _ _ _ Hcand Hparts Hq).
Defined.

(** C6. A candidate line whose header splits into exactly two parts gives no
    record ([[A|B] missing third field]); a candidate line whose text after
    the first [']'] is empty or all whitespace gives no record ([[X|Y|Z]   ]);
    and a line is read through its first ['['] ... [']'] pair only: the header
    is the text between them and everything after that [']'], further
    bracket groups included, is question text. *)
Theorem C6_rejected_lines_and_first_pair :
  (∀ qs line,
     Spec.candidate line → length (Spec.header_parts line) = 2%nat →
     parse_line qs line = qs)
  ∧ parse_line [] $"[A|B] missing third field" = []
  ∧ (∀ qs line,
       Spec.candidate line →
       Forall (λ c, isspace c = true) (Spec.text_after line) →
       parse_line qs line = qs)
  ∧ parse_line [] $"[X|Y|Z]   " = []
  ∧ (∀ qs pre h post,
       ch "[" ∉ pre → ch "]" ∉ pre → ch "]" ∉ h →
       parse_line qs (pre ++ ch "[" :: h ++ ch "]" :: post) =
         match strip <$> split (ch "|") h with
         | c :: d :: f :: _ =>
             if decide (strip post = []) then qs
             else qs ++ [ {| category := c; question := strip post;
                             difficulty := d; focus_area := f |} ]
         | _ => qs
         end)
  ∧ parse_line [] $"[A|B|C] first [D|E|F] second" =
      [ {| category := $"A"; question := $"first [D|E|F] second";
           difficulty := $"B"; focus_area := $"C" |} ].
Proof.
  split_and!; try reflexivity.
  - intros qs line _ Hlen. rewrite parse_line_spec, decide_False; [done|].
    intros (_ & ? & _). lia.
  - intros qs line _ Hws. rewrite parse_line_spec, decide_False; [done|].
    intros (_ & _ & Hq). apply Hq. unfold Spec.question_text, strip.
    by rewrite rstrip_spaces.
  - intros qs pre h post Ho Hc Hh. rewrite parse_line_spec.
    destruct (first_pair pre h post Ho Hc Hh) as [Hhd Hq].
    pose proof (split_length_elem (ch "|") h) as Hpipe.
    rewrite <- (length_fmap strip) in Hpipe.
    set (line := pre ++ ch "[" :: h ++ ch "]" :: post) in *.
    destruct (decide (Spec.valid_line line)) as [Hv|Hv].
    + destruct Hv as (_ & Hlen & Hqne).
      unfold Spec.record_of. unfold Spec.header_parts in *.
      rewrite Hhd in *. rewrite Hq in *.
      destruct (strip <$> split (ch "|") h) as [|c [|d [|f rest]]];
        simpl in Hlen; try lia.
      by rewrite decide_False.
    + destruct (strip <$> split (ch "|") h) as [|c [|d [|f rest]]] eqn:E;
        try done.
      destruct (decide (strip post = [])) as [He|He]; [done|].
      exfalso. apply Hv.
      unfold Spec.valid_line, Spec.candidate, Spec.header_parts.
      rewrite Hhd, Hq, E. split_and!; [..|simpl; lia|done]; unfold line.
      * apply elem_of_app. right. left.
      * apply elem_of_app. right. right. apply elem_of_app. right. left.
      * apply elem_of_app. right. right. apply elem_of_app. left.
        apply Hpipe. simpl. lia.
Qed.

(** The hypotheses of C6 hold on an example: a two-part header, a blank remainder, and a line with two bracket groups. *)
Lemma C6_witness :
  (Spec.candidate $" [Tech | Hard] second ] group | x"
   ∧ length (Spec.header_parts $" [Tech | Hard] second ] group | x") = 2%nat
   ∧ parse_line [] $" [Tech | Hard] second ] group | x" = [])
  ∧ (Spec.candidate $"intro [a|b|c|d]   "
     ∧ Forall (λ c, isspace c = true) (Spec.text_after $"intro [a|b|c|d]   ")
     ∧ parse_line [] $"intro [a|b|c|d]   " = [])
  ∧ ((ch "[" ∉ $"1. ") ∧ (ch "]" ∉ $"1. ") ∧ (ch "]" ∉ $"T|E[|F")
     ∧ parse_line [] ($"1. " ++ ch "[" :: $"T|E[|F" ++ ch "]" :: $" q [x|y|z]")
       = [ {| category := $"T"; question := $"q [x|y|z]";
              difficulty := $"E["; focus_area := $"F" |} ]).
Proof.
  destruct C6_rejected_lines_and_first_pair as (H2 & _ & Hws & _ & Hfirst & _).
  split_and!.
  - apply (bool_decide_unpack _); vm_compute; exact I.
  - vm_compute; reflexivity.
  - apply H2; [apply (bool_decide_unpack _); vm_compute; exact I|].
    vm_compute; reflexivity.
  - apply (bool_decide_unpack _); vm_compute; exact I.
  - apply (bool_decide_unpack _); vm_compute; exact I.
  - apply Hws; apply (bool_decide_unpack _); vm_compute; exact I.
  - apply (bool_decide_unpack _); vm_compute; exact I.
  - apply (bool_decide_unpack _); vm_compute; exact I.
  - apply (bool_decide_unpack _); vm_compute; exact I.
  - rewrite Hfirst by (apply (bool_decide_unpack _); vm_compute; exact I).
    vm_compute; reflexivity.
Defined.

(** C10. In a line that contains ['['], [']'] and ['|'] and whose first [']']
    stands before its first ['['], the header slice the parser extracts is
    empty, so it splits into fewer than three parts and the line gives no
    record. *)
Theorem C10_closing_bracket_first qs line :
  Spec.candidate line →
  find (ch "]") line < find (ch "[") line →
  Spec.header line = []
  ∧ slice (strip line) (find (ch "[") (strip line) + 1)
          (find (ch "]") (strip line)) = []
  ∧ (length (Spec.header_parts line) < 3)%nat
  ∧ parse_line qs line = qs.
Proof.
  intros Hcand Hlt.
  assert (Spec.header line = []) as Hhd.
  { destruct Hcand as (Ho & Hc & _).
    pose proof (find_elem _ _ Ho). pose proof (find_elem _ _ Hc).
    unfold Spec.header. rewrite slice_nonneg by lia.
    replace (Z.to_nat _) with 0%nat by lia. done. }
  assert (length (Spec.header_parts line) < 3)%nat as Hparts.
  { unfold Spec.header_parts. rewrite Hhd. simpl. lia. }
  split_and!; [done| |done|].
  - by rewrite <- Hhd, <- (header_strip line).
  - rewrite parse_line_spec, decide_False; [done|].
    intros (_ & ? & _). lia.
Qed.

(** The hypotheses of C10 hold on an example: a line whose closing bracket comes first. *)
Lemma C10_witness :
  Spec.candidate $"] answer | see [note"
  ∧ find (ch "]") $"] answer | see [note" < find (ch "[") $"] answer | see [note"
  ∧ parse_line [] $"] answer | see [note" = [].
Proof.
  assert (Spec.candidate $"] answer | see [note") as Hcand
    by (apply (bool_decide_unpack _); vm_compute; exact I).
  assert (find (ch "]") $"] answer | see [note"
          < find (ch "[") $"] answer | see [note") as Hlt
    by (vm_compute; reflexivity).
  split_and!; [done..|].
  exact (proj2 (proj2 (proj2
    (C10_closing_bracket_first [] _ Hcand Hlt)))).
Defined.

(** ** The parser as a whole *)

Arguments fallback_questions : simpl never.

Lemma fallback_length : length fallback_questions = 10%nat.
Proof. reflexivity. Qed.

Lemma add_fallback_value qs n st :
  (add_fallback qs n st).1 =
    if decide (len qs < 3)
    then qs ++ slice_to fallback_questions (Z.max 0 (n - len qs))
    else qs.
Proof. unfold add_fallback. by case_bool_decide; case_decide. Qed.

Lemma truncate_nonneg qs n : 0 ≤ n → truncate qs n = take (Z.to_nat n) qs.
Proof.
  intros Hn. unfold truncate. case_bool_decide as Hqs.
  - by apply slice_to_nonneg.
  - subst qs. by rewrite take_nil.
Qed.

Lemma parse_gemini_questions_value response_text n st :
  (parse_gemini_questions response_text n st).1 =
    truncate (add_fallback (parse_lines response_text) n st).1 n.
Proof.
  unfold parse_gemini_questions, mbind, UI_bind.
  by destruct (add_fallback _ _ _).
Qed.

(** C2. When the response has no valid line, the parser returns, for every
    target count [n], exactly [min(n, 10)] records: the first [min(n, 10)]
    entries of the ten-question fallback list, in its order. *)
Theorem C2_no_valid_line_gives_fallback response_text n st :
  Spec.valid_lines response_text = [] → 0 ≤ n →
  length fallback_questions = 10%nat
  ∧ (parse_gemini_questions response_text n st).1 =
      take (Z.to_nat (Z.min n 10)) fallback_questions
  ∧ len (parse_gemini_questions response_text n st).1 = Z.min n 10.
Proof.
  intros Hnone Hn. pose proof fallback_length as Hfb.
  assert ((parse_gemini_questions response_text n st).1 =
          take (Z.to_nat (Z.min n 10)) fallback_questions) as Hres.
  { rewrite parse_gemini_questions_value, add_fallback_value.
    rewrite parse_lines_spec, Hnone. simpl.
    rewrite truncate_nonneg, slice_to_nonneg by lia.
    rewrite take_take. unfold len. simpl.
    rewrite Nat.min_l by lia.
    destruct (decide (n ≤ 10)) as [Hle|Hgt].
    - by rewrite Z.min_l.
    - rewrite Z.min_r by lia. rewrite !take_ge; [done|lia..]. }
  split_and!; [done|done|].
  rewrite Hres. unfold len. rewrite length_take, Hfb. lia.
Qed.

(** The hypotheses of C2 hold on an example: a response with no valid line and the target count 4. *)
Lemma C2_witness :
  Spec.valid_lines ($"Sorry, I cannot help." ++ nl ++ $"[A|B] two parts only") = []
  ∧ 0 ≤ 4
  ∧ (parse_gemini_questions ($"Sorry, I cannot help." ++ nl ++ $"[A|B] two parts only") 4 fresh).1 = take 4 fallback_questions.
Proof.
  split_and!; [vm_compute; reflexivity|lia|].
  refine (proj1 (proj2 (C2_no_valid_line_gives_fallback _ 4 fresh _ _)));
    [vm_compute; reflexivity|lia].
Defined.

(** C3. When the response has exactly [k >= 3] valid lines and the target
    count is [n >= k], the parser returns exactly [k] records, those of the
    valid lines in the order of the lines, and appends no fallback record (nor
    shows the fallback warning). *)
Theorem C3_enough_valid_lines response_text n k st :
  len (Spec.valid_lines response_text) = k → 3 ≤ k → k ≤ n →
  parse_gemini_questions response_text n st =
    (Spec.record_of <$> Spec.valid_lines response_text, st)
  ∧ len (parse_gemini_questions response_text n st).1 = k.
Proof.
  intros Hk H3 Hn.
  assert (len (parse_lines response_text) = k) as Hlen
    by (rewrite parse_lines_spec; unfold len in *; by rewrite length_fmap).
  assert (parse_gemini_questions response_text n st =
          (Spec.record_of <$> Spec.valid_lines response_text, st)) as Hres.
  { unfold parse_gemini_questions, add_fallback, mbind, UI_bind.
    rewrite bool_decide_eq_false_2 by lia. simpl.
    rewrite truncate_nonneg by lia.
    rewrite take_ge by (unfold len in *; lia).
    by rewrite parse_lines_spec. }
  split; [done|]. rewrite Hres. simpl. unfold len in *.
  by rewrite length_fmap.
Qed.

(** C4. For a target count [n], the parser returns at most [n] records; and
    when the response has more than [n] valid lines, it returns exactly the
    records of the first [n] valid lines, in their order. *)
Theorem C4_at_most_n_and_truncation response_text n st :
  0 ≤ n →
  len (parse_gemini_questions response_text n st).1 ≤ n
  ∧ (n < len (Spec.valid_lines response_text) →
     (parse_gemini_questions response_text n st).1 =
       Spec.record_of <$> take (Z.to_nat n) (Spec.valid_lines response_text)).
Proof.
  intros Hn. rewrite parse_gemini_questions_value, truncate_nonneg by done.
  split.
  - unfold len. rewrite length_take. lia.
  - intros Hk. rewrite add_fallback_value, parse_lines_spec, fmap_take.
    case_decide as Hfew; [|done].
    unfold len in *. rewrite length_fmap in *.
    rewrite Z.max_l by lia. rewrite slice_to_nonneg by done.
    by rewrite take_0, app_nil_r.
Qed.

(** The hypotheses of C3 hold on an example: a response with three valid lines among others and the target count 5. *)
Lemma C3_witness :
  let text := $"Here are your questions:" ++ nl ++
              $"[Technical|Easy|Git] What is a commit?" ++ nl ++ nl ++
              $"[Behavioral|Hard|Conflict] Tell me about a dispute." ++ nl ++
              $"[broken line" ++ nl ++
              $"[Experience|Medium|Cloud] Which providers have you used?" in
  len (Spec.valid_lines text) = 3 ∧ 3 ≤ 3 ∧ 3 ≤ 5
  ∧ (parse_gemini_questions text 5 fresh).1 =
      [ {| category := $"Technical"; question := $"What is a commit?";
           difficulty := $"Easy"; focus_area := $"Git" |};
        {| category := $"Behavioral"; question := $"Tell me about a dispute.";
           difficulty := $"Hard"; focus_area := $"Conflict" |};
        {| category := $"Experience";
           question := $"Which providers have you used?";
           difficulty := $"Medium"; focus_area := $"Cloud" |} ].
Proof.
  intros text.
  assert (len (Spec.valid_lines text) = 3) as Hk by (vm_compute; reflexivity).
  split_and!; [done|lia|lia|].
  rewrite (proj1 (C3_enough_valid_lines text 5 3 fresh Hk ltac:(lia) ltac:(lia))).
  vm_compute; reflexivity.
Defined.

(** The hypotheses of C4 hold on an example: a response with three valid lines and the target count 2. *)
Lemma C4_witness :
  let text := $"[Technical|Easy|Git] What is a commit?" ++ nl ++
              $"[Behavioral|Hard|Conflict] Tell me about a dispute." ++ nl ++
              $"[Experience|Medium|Cloud] Which providers have you used?" in
  0 ≤ 2 ∧ 2 < len (Spec.valid_lines text)
  ∧ (parse_gemini_questions text 2 fresh).1 =
      [ {| category := $"Technical"; question := $"What is a commit?";
           difficulty := $"Easy"; focus_area := $"Git" |};
        {| category := $"Behavioral"; question := $"Tell me about a dispute.";
           difficulty := $"Hard"; focus_area := $"Conflict" |} ].
Proof.
  intros text.
  assert (2 < len (Spec.valid_lines text)) as Hk by (vm_compute; reflexivity).
  split_and!; [lia|done|].
  rewrite (proj2 (C4_at_most_n_and_truncation text 2 fresh ltac:(lia)) Hk).
  vm_compute; reflexivity.
Defined.

(** A target count is not negative.  For a negative [num_questions] the
    final slice [questions[:num_questions]] counts from the end of the list:
    with three valid lines and [-1] the parser returns the first two. *)
Example negative_num_questions :
  (parse_gemini_questions
     ($"[Technical|Easy|Git] What is a commit?" ++ nl ++
      $"[Behavioral|Hard|Conflict] Tell me about a dispute." ++ nl ++
      $"[Experience|Medium|Cloud] Which providers have you used?")
     (-1) fresh).1 =
    [ {| category := $"Technical"; question := $"What is a commit?";
         difficulty := $"Easy"; focus_area := $"Git" |};
      {| category := $"Behavioral"; question := $"Tell me about a dispute.";
         difficulty := $"Hard"; focus_area := $"Conflict" |} ].
Proof. vm_compute; reflexivity. Qed.

(** The target count comes from the slider of [main], which gives 5 to 15.
    At the count [0], which the program never passes, "the first [n] records"
    are none, whatever the fallback step leaves. *)
Example zero_num_questions :
  (add_fallback (parse_lines $"[A|B|C] q") 0 fresh).1 =
    [ {| category := $"A"; question := $"q";
         difficulty := $"B"; focus_area := $"C" |} ]
  ∧ (parse_gemini_questions $"[A|B|C] q" 0 fresh).1 = [].
Proof. split; vm_compute; reflexivity. Qed.

(** C5. For every response text and every target count the program can
    pass (the slider gives 5 to 15; the theorem takes any [n >= 1]), the
    parser returns the empty sequence only if no record exists after the
    fallback step: whenever a record, parsed or fallback, exists after that
    step, the result is not empty. *)
Theorem C5_nonempty_result response_text n st :
  1 ≤ n →
  ((parse_gemini_questions response_text n st).1 = [] →
   (add_fallback (parse_lines response_text) n st).1 = [])
  ∧ ((add_fallback (parse_lines response_text) n st).1 ≠ [] →
     (parse_gemini_questions response_text n st).1 ≠ []).
Proof.
  intros Hn. rewrite parse_gemini_questions_value, truncate_nonneg by lia.
  assert (∀ qs : list InterviewQuestion,
            take (Z.to_nat n) qs = [] → qs = []) as Htake.
  { intros qs [?|?]%take_nil_inv; [lia|done]. }
  split; [apply Htake|]. intros Hne Hnil. by apply Hne, Htake.
Qed.

(** The hypotheses of C5 hold on an example: one valid line and the target
    count 5, the least the slider gives. *)
Lemma C5_witness :
  1 ≤ 5
  ∧ (add_fallback (parse_lines $"[A|B|C] q") 5 fresh).1 ≠ []
  ∧ (parse_gemini_questions $"[A|B|C] q" 5 fresh).1 ≠ [].
Proof.
  assert ((add_fallback (parse_lines $"[A|B|C] q") 5 fresh).1 ≠ []) as Hne
    by (vm_compute; discriminate).
  split_and!; [lia|done|].
  exact (proj2 (C5_nonempty_result $"[A|B|C] q" 5 fresh ltac:(lia)) Hne).
Defined.

(** ** The filters *)

Lemma filter_all {A} (P : A → Prop) `{!∀ x, Decision (P x)} (l : list A) :
  (∀ x, P x) → filter P l = l.
Proof.
  intros HP. induction l as [|x l IH]; [done|].
  by rewrite filter_cons_True, IH.
Qed.

(** C8. Whatever the two selections, the filtered list is the list of the
    records that satisfy both per-field tests, where the selection ['All']
    accepts every record; so it is a sublist of the unfiltered list: the same
    records, in their order. *)
Theorem C8_filters_are_a_conjunction questions difficulty_filter category_filter :
  apply_filters questions difficulty_filter category_filter =
    filter (λ q, Spec.selects difficulty_filter (difficulty q)
                 ∧ Spec.selects category_filter (category q)) questions
  ∧ apply_filters questions difficulty_filter category_filter
      `sublist_of` questions.
Proof.
  assert (apply_filters questions difficulty_filter category_filter =
    filter (λ q, Spec.selects difficulty_filter (difficulty q)
                 ∧ Spec.selects category_filter (category q)) questions) as ->.
  { unfold apply_filters, Spec.selects.
    case_bool_decide as Hd; case_bool_decide as Hc.
    - rewrite list_filter_filter. apply list_filter_iff. intros q. tauto.
    - apply list_filter_iff. intros q. tauto.
    - apply list_filter_iff. intros q. tauto.
    - symmetry. apply filter_all. intros q. tauto. }
  split; [done|]. apply sublist_filter.
Qed.

(** ** The JSON export *)

(** C9. The export holds one object per filtered record, in the same order;
    the object at position [i] (from 0) carries the fields of the record at
    position [i] and the question number [i + 1]. *)
Theorem C9_export_objects filtered_questions :
  questions_json filtered_questions = JList (export_objects filtered_questions)
  ∧ length (export_objects filtered_questions) = length filtered_questions
  ∧ ∀ i obj, export_objects filtered_questions !! i = Some obj ↔
      ∃ q, filtered_questions !! i = Some q
        ∧ obj = JDict [ ($"question_number", JInt (Z.of_nat i + 1));
                        ($"category", JStr (category q));
                        ($"question", JStr (question q));
                        ($"difficulty", JStr (difficulty q));
                        ($"focus_area", JStr (focus_area q)) ]
        ∧ dict_get $"question_number" obj = Some (JInt (Z.of_nat i + 1))
        ∧ dict_get $"category" obj = Some (JStr (category q))
        ∧ dict_get $"question" obj = Some (JStr (question q))
        ∧ dict_get $"difficulty" obj = Some (JStr (difficulty q))
        ∧ dict_get $"focus_area" obj = Some (JStr (focus_area q)).
Proof.
  split_and!; [done|apply length_imap|].
  intros i obj. unfold export_objects. rewrite list_lookup_imap.
  destruct (filtered_questions !! i) as [q|]; simpl.
  - split.
    + intros [= <-]. exists q. split_and!; reflexivity.
    + intros (q' & [= <-] & -> & _). done.
  - split; [done|]. by intros (q & ? & _).
Qed.

(** ** A failing generation call *)

(** C7. When the generation call raises, [generate_questions_with_gemini]
    shows an error message carrying the exception's text and returns no
    record; the handler of the generate button then leaves the session state,
    and with it the records displayed before, as it was, and when the inputs
    pass the checks it shows exactly that error and the failure notice. *)
Theorem C7_generation_failure gemini e :
  (∀ resume_text job_description skills n key st,
     gemini key (build_prompt resume_text job_description skills n)
       = Raised e →
     generate_questions_with_gemini gemini resume_text job_description
         skills n key st =
       ([], {| shown := shown st ++
                 [(Error, $"Error generating questions with Gemini: " ++ e)];
               session := session st |}))
  ∧ (∀ f st,
       (∀ prompt, gemini (api_key f) prompt = Raised e) →
       session (generate_clicked gemini f st).2 = session st
       ∧ (∀ pages,
            api_key f ≠ [] → api_key f ≠ $"YOUR_GEMINI_API_KEY_HERE" →
            uploaded_resume f = Some (Returned pages) →
            strip (job_description f) ≠ [] → strip (skills_input f) ≠ [] →
            pdf_text pages ≠ [] →
            (generate_clicked gemini f st).2 =
              {| shown := shown st ++
                   [(Error, $"Error generating questions with Gemini: " ++ e);
                    (Error, cross_mark :: $" Failed to generate questions."
                              ++ $" Please try again or check your inputs.")];
                 session := session st |})).
Proof.
  split.
  - intros resume_text job_description skills n key st Hfail.
    unfold generate_questions_with_gemini. by rewrite Hfail.
  - intros f st Hfail. split.
    + unfold generate_clicked, generate_questions_with_gemini.
      destruct (_ || _); [done|].
      destruct (uploaded_resume f) as [[pages|e']|]; [| |done].
      * repeat (case_bool_decide; [done|]). simpl.
        unfold mbind, UI_bind. simpl.
        destruct (pdf_text pages); [done|]. by rewrite Hfail.
      * by repeat (case_bool_decide; [done|]).
    + intros pages Hkey Hph Hup Hjd Hsk Htext.
      unfold generate_clicked, generate_questions_with_gemini.
      rewrite !bool_decide_eq_false_2 by done. simpl. rewrite Hup.
      unfold mbind, UI_bind. simpl.
      destruct (pdf_text pages) as [|c text]; [done|].
      rewrite Hfail. simpl. by rewrite <- app_assoc.
Qed.

(** The hypotheses of C7 hold on an example: a client that always raises, on a form that passes every check. *)
Lemma C7_witness :
  let gemini := λ _ _ : str, @Raised str $"429 quota exceeded" in
  let f := {| api_key := $"key"; num_questions := 10;
              technical_focus := $"Balanced (50% Technical)";
              uploaded_resume := Some (Returned [$"Jane Doe"; $" Engineer"]);
              job_description := $"Backend developer";
              skills_input := $"Python, SQL";
              experience_level := $"Mid Level (3-5 years)";
              interview_type := $"Coding Focus";
              company_info := [] |} in
  let before :=
    {| shown := [];
       session := {| generated_questions := Some (take 2 fallback_questions);
                     show_questions := Some true |} |} in
  (∀ prompt, gemini (api_key f) prompt = Raised $"429 quota exceeded")
  ∧ generate_questions_with_gemini gemini $"Jane Doe" $"Backend developer"
        $"Python, SQL" 10 $"key" before =
      ([], {| shown :=
                [(Error,
                  $"Error generating questions with Gemini: 429 quota exceeded")];
              session := session before |})
  ∧ session (generate_clicked gemini f before).2 = session before
  ∧ shown (generate_clicked gemini f before).2 =
      [(Error, $"Error generating questions with Gemini: 429 quota exceeded");
       (Error, cross_mark :: $" Failed to generate questions."
                 ++ $" Please try again or check your inputs.")].
Proof.
  intros gemini f before.
  assert (∀ prompt, gemini (api_key f) prompt = Raised $"429 quota exceeded")
    as Hfail by done.
  destruct (proj2 (C7_generation_failure gemini $"429 quota exceeded")
              f before Hfail) as [Hsession Hshown].
  split_and!; [done| |done|].
  { by rewrite (proj1 (C7_generation_failure gemini $"429 quota exceeded")). }
  rewrite (Hshown [$"Jane Doe"; $" Engineer"]);
    [reflexivity
    |vm_compute; discriminate
    |vm_compute; discriminate
    |reflexivity
    |vm_compute; discriminate
    |vm_compute; discriminate
    |vm_compute; discriminate].
Defined.

(** * Further properties of the code *)

(** ** More on trimming and splitting *)

Lemma lstrip_app_spaces w s :
  Forall (λ c, isspace c = true) w → lstrip (w ++ s) = lstrip s.
Proof. induction 1 as [|c w Hc _ IH]; simpl; [done|]. by rewrite Hc. Qed.

Lemma rstrip_app a s :
  rstrip (a ++ s) = if decide (rstrip s = []) then rstrip a else a ++ rstrip s.
Proof.
  induction a as [|c a IH]; simpl.
  - by case_decide.
  - rewrite IH. case_decide as Hs; [done|].
    destruct (rstrip s) as [|d r]; [done|]. by destruct a.
Qed.

Lemma strip_pad w1 s w2 :
  Forall (λ c, isspace c = true) w1 → Forall (λ c, isspace c = true) w2 →
  strip (w1 ++ s ++ w2) = strip s.
Proof.
  intros H1 H2. rewrite app_assoc, strip_app_spaces by done.
  unfold strip. rewrite rstrip_app, (rstrip_spaces w1) by done.
  case_decide as Hs; [by rewrite Hs|]. by apply lstrip_app_spaces.
Qed.

Lemma lstrip_idem s : lstrip (lstrip s) = lstrip s.
Proof.
  induction s as [|c s IH]; simpl; [done|].
  destruct (isspace c) eqn:Hc; [done|]. simpl. by rewrite Hc.
Qed.

Lemma rstrip_idem s : rstrip (rstrip s) = rstrip s.
Proof.
  induction s as [|c s IH]; simpl; [done|].
  destruct (rstrip s) as [|d r] eqn:E.
  - destruct (isspace c) eqn:Hc; simpl; [done|]. by rewrite Hc.
  - change (rstrip (c :: d :: r)) with
      (match rstrip (d :: r) with
       | [] => if isspace c then [] else [c]
       | x => c :: x
       end).
    by rewrite IH.
Qed.

Lemma rstrip_lstrip_fixed s : rstrip s = s → rstrip (lstrip s) = lstrip s.
Proof.
  induction s as [|c s IH]; simpl; [done|].
  destruct (isspace c) eqn:Hc.
  - destruct (rstrip s) as [|d r] eqn:E; [done|].
    intros [= Hs]. apply IH. congruence.
  - intros Hs. simpl. rewrite Hc. exact Hs.
Qed.

Lemma strip_idem s : strip (strip s) = strip s.
Proof.
  unfold strip.
  rewrite (rstrip_lstrip_fixed (rstrip s)) by apply rstrip_idem.
  apply lstrip_idem.
Qed.

Lemma strip_subseteq c s : c ∈ strip s → c ∈ s.
Proof.
  intros Hc. destruct (strip_decomp s) as (w1 & w2 & Hs & _).
  rewrite Hs, !elem_of_app. auto.
Qed.

Lemma split_nonempty sep s : split sep s ≠ [].
Proof.
  destruct s as [|c s]; simpl; [done|].
  case_decide; [done|]. by destruct (split sep s).
Qed.

Lemma split_without sep s : sep ∉ s → split sep s = [s].
Proof.
  induction s as [|c s IH]; simpl; [done|].
  intros [Hne Hs]%not_elem_of_cons.
  rewrite decide_False by done. by rewrite IH.
Qed.

Lemma split_app sep a b :
  split sep (a ++ sep :: b) = split sep a ++ split sep b.
Proof.
  induction a as [|c a IH]; simpl.
  - by rewrite decide_True.
  - case_decide; [by rewrite IH|].
    rewrite IH. pose proof (split_nonempty sep a).
    by destruct (split sep a).
Qed.

Lemma split_no_sep sep s p : p ∈ split sep s → sep ∉ p.
Proof.
  revert p. induction s as [|c s IH]; simpl; intros p.
  - intros ->%list_elem_of_singleton. apply not_elem_of_nil.
  - case_decide as Hc.
    + intros [->|Hp]%elem_of_cons; [apply not_elem_of_nil|by apply IH].
    + destruct (split sep s) as [|p0 ps]; simpl.
      * intros ->%list_elem_of_singleton.
        apply not_elem_of_cons. split; [done|apply not_elem_of_nil].
      * intros [->|Hp]%elem_of_cons.
        -- apply not_elem_of_cons. split; [done|]. apply IH. left.
        -- apply IH. by right.
Qed.

Lemma split_subseteq sep s p c : p ∈ split sep s → c ∈ p → c ∈ s.
Proof.
  revert p. induction s as [|x s IH]; simpl; intros p.
  - by intros ->%list_elem_of_singleton.
  - case_decide as Hx.
    + intros [->|Hp]%elem_of_cons Hc; [by apply elem_of_nil in Hc|].
      right. by apply (IH p).
    + destruct (split sep s) as [|p0 ps]; simpl.
      * intros ->%list_elem_of_singleton [->|Hc]%elem_of_cons; [left|].
        by apply elem_of_nil in Hc.
      * intros [->|Hp]%elem_of_cons Hc.
        -- apply elem_of_cons in Hc as [->|Hc]; [left|].
           right. apply (IH p0); [left|done].
        -- right. apply (IH p); [by right|done].
Qed.

(** ** Lines: padding, the prompt's format, and what a record can hold *)

(** X1. Whitespace around a line does not matter: a line indented, or
    followed by blanks or a carriage return, is read as the line itself. *)
Theorem X1_padding_is_ignored qs w1 line w2 :
  Forall (λ c, isspace c = true) w1 → Forall (λ c, isspace c = true) w2 →
  parse_line qs (w1 ++ line ++ w2) = parse_line qs line.
Proof.
  intros H1 H2. by rewrite !parse_line_trimmed, strip_pad.
Qed.

(** X1 on an indented line that ends with a carriage return. *)
Lemma X1_witness :
  Forall (λ c, isspace c = true) $"    "
  ∧ Forall (λ c, isspace c = true) [13%N]
  ∧ parse_line [] ($"    " ++ $"[A|B|C] q?" ++ [13%N])
    = parse_line [] $"[A|B|C] q?".
Proof.
  assert (Forall (λ c, isspace c = true) $"    ") as H1
    by (apply (bool_decide_unpack _); vm_compute; exact I).
  assert (Forall (λ c, isspace c = true) [13%N]) as H2
    by (apply (bool_decide_unpack _); vm_compute; exact I).
  split_and!; [done..|].
  exact (X1_padding_is_ignored [] _ _ _ H1 H2).
Defined.

Lemma parse_line_first_pair qs pre h post :
  ch "[" ∉ pre → ch "]" ∉ pre → ch "]" ∉ h →
  parse_line qs (pre ++ ch "[" :: h ++ ch "]" :: post) =
    match strip <$> split (ch "|") h with
    | c :: d :: f :: _ =>
        if decide (strip post = []) then qs
        else qs ++ [ {| category := c; question := strip post;
                        difficulty := d; focus_area := f |} ]
    | _ => qs
    end.
Proof.
  intros Ho Hc Hh. rewrite parse_line_spec.
  destruct (first_pair pre h post Ho Hc Hh) as [Hhd Hq].
  pose proof (split_length_elem (ch "|") h) as Hpipe.
  rewrite <- (length_fmap strip) in Hpipe.
  set (line := pre ++ ch "[" :: h ++ ch "]" :: post) in *.
  destruct (decide (Spec.valid_line line)) as [Hv|Hv].
  - destruct Hv as (_ & Hlen & Hqne).
    unfold Spec.record_of. unfold Spec.header_parts in *.
    rewrite Hhd in *. rewrite Hq in *.
    destruct (strip <$> split (ch "|") h) as [|c [|d [|f rest]]];
      simpl in Hlen; try lia.
    by rewrite decide_False.
  - destruct (strip <$> split (ch "|") h) as [|c [|d [|f rest]]] eqn:E;
      try done.
    destruct (decide (strip post = [])) as [He|He]; [done|].
    exfalso. apply Hv.
    unfold Spec.valid_line, Spec.candidate, Spec.header_parts.
    rewrite Hhd, Hq, E. split_and!; [..|simpl; lia|done]; unfold line.
    + apply elem_of_app. right. left.
    + apply elem_of_app. right. right. apply elem_of_app. right. left.
    + apply elem_of_app. right. right. apply elem_of_app. left.
      apply Hpipe. simpl. lia.
Qed.

Lemma format_line_shape q :
  format_line q =
    [] ++ ch "[" ::
      (category q ++ ch "|" :: difficulty q ++ ch "|" :: focus_area q)
      ++ ch "]" :: ch " " :: question q.
Proof.
  unfold format_line. simpl. f_equal.
  rewrite <- app_assoc. simpl. f_equal. f_equal.
  by rewrite <- app_assoc.
Qed.

Lemma parse_line_format_line qs q :
  well_formed q → parse_line qs (format_line q) = qs ++ [q].
Proof.
  intros ((Hc1 & Hc2 & Hc3 & _) & (Hd1 & Hd2 & Hd3 & _)
          & (Hf1 & Hf2 & Hf3 & _) & Hq1 & Hq2 & _).
  rewrite format_line_shape, parse_line_first_pair.
  - rewrite split_app, (split_without _ (category q)) by done.
    rewrite split_app, (split_without _ (difficulty q)) by done.
    rewrite (split_without _ (focus_area q)) by done.
    assert (strip (ch " " :: question q) = question q) as ->.
    { rewrite <- Hq2 at 2.
      pose proof (strip_pad [ch " "] (question q) []) as Hpad.
      rewrite app_nil_r in Hpad. apply Hpad; by repeat constructor. }
    simpl. rewrite Hc1, Hd1, Hf1.
    rewrite decide_False by done. by destruct q.
  - apply not_elem_of_nil.
  - apply not_elem_of_nil.
  - rewrite !elem_of_app, !elem_of_cons, !elem_of_app, !elem_of_cons.
    intros [?|[?|[?|[?|?]]]]; done.
Qed.

(** X2. Round trip of one line: a well-formed record written in the format
    the prompt asks for, [[Category|Difficulty|Focus Area] Question text],
    is read back as that record. *)
Theorem X2_format_then_parse_line qs q :
  well_formed q → parse_line qs (format_line q) = qs ++ [q].
Proof. apply parse_line_format_line. Qed.

(** X2 on a record whose fields hold blanks and an opening bracket. *)
Lemma X2_witness :
  let q := {| category := $"Technical"; question := $"What does a[0] do?";
              difficulty := $"Easy"; focus_area := $"C [arrays" |} in
  well_formed q ∧ parse_line [] (format_line q) = [q].
Proof.
  intros q.
  assert (well_formed q) as Hq
    by (apply (bool_decide_unpack _); vm_compute; exact I).
  split; [done|]. exact (X2_format_then_parse_line [] q Hq).
Defined.

(** ** Responses: line by line, and back from the format *)

Lemma parse_lines_app a b :
  parse_lines (a ++ ch "010" :: b) = parse_lines a ++ parse_lines b.
Proof.
  rewrite !parse_lines_spec. unfold Spec.valid_lines, Spec.lines.
  by rewrite split_app, filter_app, fmap_app.
Qed.

(** X3. The lines of a response are read independently: the records of two
    texts joined by a newline are the records of the first followed by those
    of the second. *)
Theorem X3_parse_lines_splits_at_newline a b :
  parse_lines (a ++ ch "010" :: b) = parse_lines a ++ parse_lines b.
Proof. apply parse_lines_app. Qed.

Lemma format_line_one_line q : well_formed q → ch "010" ∉ format_line q.
Proof.
  intros ((_ & _ & _ & Hc) & (_ & _ & _ & Hd) & (_ & _ & _ & Hf)
          & _ & _ & Hq).
  unfold format_line.
  rewrite !elem_of_cons, !elem_of_app, !elem_of_cons, !elem_of_app,
    !elem_of_cons, !elem_of_app, !elem_of_cons.
  intros [?|[?|[?|[?|[?|[?|[?|[?|?]]]]]]]]; done.
Qed.

Lemma parse_lines_format_line q :
  well_formed q → parse_lines (format_line q) = [q].
Proof.
  intros Hq. unfold parse_lines.
  rewrite split_without by by apply format_line_one_line.
  simpl. by apply (parse_line_format_line []).
Qed.

Lemma parse_lines_join_format qs :
  Forall well_formed qs → parse_lines (join_lines (format_line <$> qs)) = qs.
Proof.
  induction 1 as [|q qs Hq Hqs IH]; [done|].
  destruct qs as [|q' qs].
  - by apply parse_lines_format_line.
  - change (join_lines (format_line <$> q :: q' :: qs))
      with (format_line q ++ ch "010" :: join_lines (format_line <$> q' :: qs)).
    by rewrite parse_lines_app, IH, parse_lines_format_line.
Qed.

(** X4. Round trip of a response: well-formed records written one per line in
    the prompt's format are read back as they are, in order; and when there
    are at least three of them and no more than the target count, the parser
    returns exactly them and shows no warning. *)
Theorem X4_format_then_parse qs n st :
  Forall well_formed qs →
  parse_lines (join_lines (format_line <$> qs)) = qs
  ∧ (3 ≤ len qs → len qs ≤ n →
     parse_gemini_questions (join_lines (format_line <$> qs)) n st = (qs, st)).
Proof.
  intros Hqs. pose proof (parse_lines_join_format qs Hqs) as Hparse.
  split; [done|]. intros H3 Hn.
  unfold parse_gemini_questions, add_fallback, mbind, UI_bind.
  rewrite Hparse. rewrite bool_decide_eq_false_2 by lia. simpl.
  rewrite truncate_nonneg by lia.
  by rewrite take_ge by (unfold len in *; lia).
Qed.

(** X4 on the first four fallback questions and the target count 5. *)
Lemma X4_witness :
  Forall well_formed (take 4 fallback_questions)
  ∧ parse_gemini_questions
      (join_lines (format_line <$> take 4 fallback_questions)) 5 fresh
    = (take 4 fallback_questions, fresh).
Proof.
  assert (Forall well_formed (take 4 fallback_questions)) as Hwf
    by (apply (bool_decide_unpack _); vm_compute; exact I).
  split; [done|].
  apply (proj2 (X4_format_then_parse _ 5 fresh Hwf)); vm_compute; discriminate.
Defined.

(** ** What the parser returns is well formed *)

Lemma find_ge c s : -1 ≤ find c s.
Proof. unfold find. destruct (list_find _ s) as [[i x]|]; lia. Qed.

Lemma find_le_lookup c s (j : nat) : s !! j = Some c → find c s ≤ Z.of_nat j.
Proof.
  intros Hj. unfold find.
  destruct (list_find (λ x, x = c) s) as [[i x]|] eqn:Hf; [|lia].
  apply list_find_Some in Hf as (_ & _ & Hmin).
  destruct (decide (j < i)%nat) as [Hlt|]; [|lia].
  by destruct (Hmin j c Hj Hlt).
Qed.

Lemma slice_subseteq {A} (l : list A) a b x : x ∈ slice l a b → x ∈ l.
Proof.
  unfold slice. intros Hx%list_elem_of_lookup_1. destruct Hx as [i Hi].
  apply lookup_take_Some in Hi as [Hi _]. rewrite lookup_drop in Hi.
  by eapply list_elem_of_lookup_2.
Qed.

Lemma Forall_slice {A} (P : A → Prop) (l : list A) a b :
  Forall P l → Forall P (slice l a b).
Proof. intros Hl. unfold slice. by apply Forall_take, Forall_drop. Qed.

Lemma header_no_close line : ch "]" ∉ Spec.header line.
Proof.
  unfold Spec.header.
  pose proof (find_ge (ch "[") line) as Ho.
  destruct (decide (ch "]" ∈ line)) as [Hin|Hout];
    [|by intros ?%slice_subseteq].
  pose proof (find_elem _ _ Hin) as Hc.
  rewrite slice_nonneg by lia.
  intros Hx%list_elem_of_lookup_1. destruct Hx as [i Hi].
  apply lookup_take_Some in Hi as [Hi Hlt]. rewrite lookup_drop in Hi.
  apply find_le_lookup in Hi. lia.
Qed.

Lemma header_part_clean line (i : nat) :
  ch "010" ∉ line →
  clean_field (default [] (Spec.header_parts line !! i)).
Proof.
  intros Hnl. destruct (Spec.header_parts line !! i) as [x|] eqn:Hx; simpl.
  - apply list_elem_of_lookup_2 in Hx. unfold Spec.header_parts in Hx.
    apply list_elem_of_fmap in Hx as (p & -> & Hp).
    split_and!.
    + apply strip_idem.
    + intros Hin%strip_subseteq. by apply (split_no_sep _ _ _ Hp).
    + intros Hin%strip_subseteq. apply (header_no_close line).
      by apply (split_subseteq _ _ _ _ Hp).
    + intros Hin%strip_subseteq. apply Hnl.
      eapply slice_subseteq. by apply (split_subseteq _ _ _ _ Hp).
  - split_and!; [done|apply not_elem_of_nil..].
Qed.

Lemma record_of_well_formed line :
  Spec.valid_line line → ch "010" ∉ line → well_formed (Spec.record_of line).
Proof.
  intros (_ & _ & Hq) Hnl. unfold well_formed, Spec.record_of. simpl.
  split_and!; try by apply header_part_clean.
  - done.
  - apply strip_idem.
  - intros Hin%strip_subseteq. apply Hnl. by eapply slice_subseteq.
Qed.

Lemma parse_lines_well_formed response_text :
  Forall well_formed (parse_lines response_text).
Proof.
  rewrite parse_lines_spec. apply Forall_fmap, list.Forall_forall.
  intros line [Hv Hline]%list_elem_of_filter. simpl.
  apply record_of_well_formed; [done|]. by apply (split_no_sep _ _ _ Hline).
Qed.

Lemma fallback_well_formed : Forall well_formed fallback_questions.
Proof. apply (bool_decide_unpack _). vm_compute. exact I. Qed.

Lemma truncate_Forall (P : InterviewQuestion → Prop) qs n :
  Forall P qs → Forall P (truncate qs n).
Proof.
  intros Hqs. unfold truncate. case_bool_decide; [|done].
  by apply Forall_slice.
Qed.

Lemma parse_gemini_questions_well_formed response_text n st :
  Forall well_formed (parse_gemini_questions response_text n st).1.
Proof.
  rewrite parse_gemini_questions_value, add_fallback_value.
  apply truncate_Forall. pose proof (parse_lines_well_formed response_text).
  case_decide; [|done]. apply Forall_app. split; [done|].
  apply Forall_slice, fallback_well_formed.
Qed.

(** X5. Every record the parser returns, parsed or fallback and whatever the
    target count, is well formed: its question is not empty, trimmed and on
    one line, and its category, difficulty and focus area are trimmed, on one
    line, and hold neither ['|'] nor [']'].  So each returned record can be
    written in the prompt's line format and read back (X2). *)
Theorem X5_returned_records_are_well_formed response_text n st q :
  q ∈ (parse_gemini_questions response_text n st).1 →
  well_formed q ∧ parse_line [] (format_line q) = [q].
Proof.
  intros Hq.
  pose proof (parse_gemini_questions_well_formed response_text n st) as Hall.
  rewrite list.Forall_forall in Hall. specialize (Hall q Hq).
  split; [done|]. by apply (parse_line_format_line []).
Qed.

(** X5 on a response with one valid line, padded, and the target count 3. *)
Lemma X5_witness :
  let text := $"Sure!" ++ nl ++ $"  [ Technical | Hard |APIs ]   What is REST?  " in
  let q := {| category := $"Technical"; question := $"What is REST?";
              difficulty := $"Hard"; focus_area := $"APIs" |} in
  q ∈ (parse_gemini_questions text 3 fresh).1 ∧ well_formed q.
Proof.
  intros text q.
  assert (q ∈ (parse_gemini_questions text 3 fresh).1) as Hq
    by (apply (bool_decide_unpack _); vm_compute; exact I).
  split; [done|].
  exact (proj1 (X5_returned_records_are_well_formed text 3 fresh q Hq)).
Defined.

(** ** How many records, and which, when fewer than three lines are valid *)

(** X6. With fewer than three valid lines the parsed records are kept, in
    front: for [k < 3] valid lines and a target count [n >= k] the result is
    the [k] parsed records followed by the first [min(n - k, 10)] fallback
    questions. *)
Theorem X6_fallback_fills_after_parsed response_text n k st :
  len (Spec.valid_lines response_text) = k → k < 3 → k ≤ n →
  (parse_gemini_questions response_text n st).1 =
    (Spec.record_of <$> Spec.valid_lines response_text)
      ++ take (Z.to_nat (Z.min (n - k) 10)) fallback_questions.
Proof.
  intros Hk H3 Hn. pose proof fallback_length as Hfb.
  rewrite parse_gemini_questions_value, add_fallback_value, parse_lines_spec.
  assert (len (Spec.record_of <$> Spec.valid_lines response_text) = k) as Hlen
    by (unfold len in *; by rewrite length_fmap).
  rewrite decide_True by lia. rewrite Hlen.
  rewrite truncate_nonneg, slice_to_nonneg by (unfold len in *; lia).
  assert (take (Z.to_nat (0 `max` (n - k))) fallback_questions
          = take (Z.to_nat ((n - k) `min` 10)) fallback_questions) as ->.
  { destruct (decide (n - k ≤ 10)).
    - f_equal. lia.
    - rewrite !take_ge; [done|lia..]. }
  apply take_ge. unfold len in *.
  rewrite length_app, length_take. lia.
Qed.

(** X6 on a response with one valid line and the target count 3. *)
Lemma X6_witness :
  let text := $"[Technical|Hard|APIs] What is REST?" in
  len (Spec.valid_lines text) = 1 ∧ 1 < 3 ∧ 1 ≤ 3
  ∧ (parse_gemini_questions text 3 fresh).1 =
      {| category := $"Technical"; question := $"What is REST?";
         difficulty := $"Hard"; focus_area := $"APIs" |}
      :: take 2 fallback_questions.
Proof.
  intros text.
  assert (len (Spec.valid_lines text) = 1) as Hk by (vm_compute; reflexivity).
  split_and!; [done|lia|lia|].
  rewrite (X6_fallback_fills_after_parsed text 3 1 fresh Hk
             ltac:(lia) ltac:(lia)).
  vm_compute; reflexivity.
Defined.

Lemma parse_gemini_questions_count response_text n st :
  0 ≤ n →
  let k := len (Spec.valid_lines response_text) in
  len (parse_gemini_questions response_text n st).1 =
    (if decide (k < 3) then Z.min n (k + 10) else Z.min n k)
  ∧ (1 ≤ n → (parse_gemini_questions response_text n st).1 ≠ []).
Proof.
  intros Hn k. pose proof fallback_length as Hfb.
  assert (len (parse_gemini_questions response_text n st).1 =
          (if decide (k < 3) then Z.min n (k + 10) else Z.min n k)) as Hlen.
  { rewrite parse_gemini_questions_value, add_fallback_value, parse_lines_spec.
    rewrite truncate_nonneg by done. subst k. unfold len.
    rewrite length_fmap. case_decide as Hk.
    - rewrite slice_to_nonneg by lia.
      rewrite length_take, length_app, length_take, length_fmap. lia.
    - rewrite length_take, length_fmap. lia. }
  split; [done|]. intros H1 Hnil. rewrite Hnil in Hlen.
  unfold len in Hlen. simpl in Hlen. case_decide; subst k; unfold len in *; lia.
Qed.

(** X7. The number of records returned, for a target count [n >= 0] and [k]
    valid lines: [min(n, k + 10)] when [k < 3] and [min(n, k)] otherwise.  So
    the result falls short of [n] exactly when [3 <= k < n] or
    [k + 10 < n]; and for [n >= 1] the result is never empty. *)
Theorem X7_number_of_records response_text n st :
  0 ≤ n →
  let k := len (Spec.valid_lines response_text) in
  len (parse_gemini_questions response_text n st).1 =
    (if decide (k < 3) then Z.min n (k + 10) else Z.min n k)
  ∧ (1 ≤ n → (parse_gemini_questions response_text n st).1 ≠ []).
Proof. apply parse_gemini_questions_count. Qed.

(** X7 on an empty response and the target count 15: ten records. *)
Lemma X7_witness :
  0 ≤ 15 ∧ len (parse_gemini_questions [] 15 fresh).1 = 10.
Proof.
  split; [lia|].
  exact (proj1 (X7_number_of_records [] 15 fresh ltac:(lia))).
Defined.

Lemma parse_gemini_questions_state response_text n st :
  (parse_gemini_questions response_text n st).2 =
    {| shown :=
         shown st ++
           (if decide (len (Spec.valid_lines response_text) < 3)
            then [(Warning,
                   $"Using fallback questions due to parsing issues")]
            else []);
       session := session st |}.
Proof.
  unfold parse_gemini_questions, add_fallback, mbind, UI_bind.
  rewrite parse_lines_spec. unfold len. rewrite length_fmap.
  case_bool_decide; case_decide; try done.
  simpl. rewrite app_nil_r. by destruct st.
Qed.

(** X8. The parser shows the fallback warning exactly when fewer than three
    lines are valid, shows nothing else, and never touches the session
    state. *)
Theorem X8_warning_iff_few_valid_lines response_text n st :
  (parse_gemini_questions response_text n st).2 =
    {| shown :=
         shown st ++
           (if decide (len (Spec.valid_lines response_text) < 3)
            then [(Warning,
                   $"Using fallback questions due to parsing issues")]
            else []);
       session := session st |}.
Proof. apply parse_gemini_questions_state. Qed.

(** ** The generate handler *)

Lemma generate_clicked_checked gemini f st pages :
  api_key f ≠ [] → api_key f ≠ $"YOUR_GEMINI_API_KEY_HERE" →
  strip (job_description f) ≠ [] → strip (skills_input f) ≠ [] →
  uploaded_resume f = Some (Returned pages) → pdf_text pages ≠ [] →
  ∃ resume_text,
    generate_clicked gemini f st =
      (questions ← generate_questions_with_gemini gemini resume_text
                     (job_description f) (skills_input f) (num_questions f)
                     (api_key f);
       if bool_decide (questions ≠ []) then
         st_success (check_mark :: $" Successfully generated "
                       ++ str_of_int (len questions)
                       ++ $" interview questions!");;
         set_session {| generated_questions := Some questions;
                        show_questions := Some true |}
       else
         st_error (cross_mark :: $" Failed to generate questions."
                     ++ $" Please try again or check your inputs.")) st.
Proof.
  intros Hkey Hph Hjd Hsk Hup Htext. unfold generate_clicked.
  rewrite !bool_decide_eq_false_2 by done. simpl. rewrite Hup.
  unfold mbind at 1. unfold UI_bind at 1. simpl.
  destruct (pdf_text pages) as [|c text]; [done|]. eauto.
Qed.

(** X9. When the form passes the checks, the Gemini call returns a text and
    the target count is at least 1, the handler stores exactly the records
    the parser returns for that text, sets the show flag, and ends with the
    success message that carries their number; the failure notice cannot
    appear, because the parser's result is never empty. *)
Theorem X9_generation_success gemini f st pages text :
  api_key f ≠ [] → api_key f ≠ $"YOUR_GEMINI_API_KEY_HERE" →
  strip (job_description f) ≠ [] → strip (skills_input f) ≠ [] →
  uploaded_resume f = Some (Returned pages) → pdf_text pages ≠ [] →
  (∀ prompt, gemini (api_key f) prompt = Returned text) →
  1 ≤ num_questions f →
  let parsed := parse_gemini_questions text (num_questions f) st in
  (generate_clicked gemini f st).2 =
    {| shown :=
         shown parsed.2 ++
           [(Success, check_mark :: $" Successfully generated "
                        ++ str_of_int (len parsed.1)
                        ++ $" interview questions!")];
       session := {| generated_questions := Some parsed.1;
                     show_questions := Some true |} |}
  ∧ display_condition (session (generate_clicked gemini f st).2) = true.
Proof.
  intros Hkey Hph Hjd Hsk Hup Htext Hret Hn parsed.
  pose proof (proj2 (parse_gemini_questions_count text (num_questions f) st
                       ltac:(lia)) Hn) as Hne.
  fold parsed in Hne.
  match goal with |- ?final = ?expected ∧ _ =>
    assert (final = expected) as Hst end.
  { destruct (generate_clicked_checked gemini f st pages)
      as [resume_text ->]; [done..|].
    unfold generate_questions_with_gemini. rewrite Hret.
    unfold mbind at 1. unfold UI_bind at 1. fold parsed.
    destruct parsed as [questions st'].
    cbn [fst snd] in *. rewrite bool_decide_eq_true_2 by exact Hne.
    reflexivity. }
  split; [exact Hst|]. rewrite Hst. unfold display_condition.
  cbn [session show_questions generated_questions].
  destruct (parsed.1); [by destruct Hne|reflexivity].
Qed.

(** X9 on a form that passes the checks and a client that answers with one
    valid line. *)
Lemma X9_witness :
  let gemini := λ _ _ : str, Returned $"[Technical|Hard|APIs] What is REST?" in
  let f := {| api_key := $"key"; num_questions := 5;
              technical_focus := $"Balanced (50% Technical)";
              uploaded_resume := Some (Returned [$"Jane Doe"]);
              job_description := $"Backend developer";
              skills_input := $"Python, SQL";
              experience_level := $"Mid Level (3-5 years)";
              interview_type := $"Coding Focus";
              company_info := $"Fintech" |} in
  passes_checks f
  ∧ generated_questions (session (generate_clicked gemini f new_session).2) =
      Some ({| category := $"Technical"; question := $"What is REST?";
               difficulty := $"Hard"; focus_area := $"APIs" |}
            :: take 4 fallback_questions)
  ∧ display_condition (session (generate_clicked gemini f new_session).2)
    = true.
Proof.
  intros gemini f.
  assert (api_key f ≠ []) as Hkey by (vm_compute; discriminate).
  assert (api_key f ≠ $"YOUR_GEMINI_API_KEY_HERE") as Hph
    by (vm_compute; discriminate).
  assert (strip (job_description f) ≠ []) as Hjd
    by (vm_compute; discriminate).
  assert (strip (skills_input f) ≠ []) as Hsk by (vm_compute; discriminate).
  assert (uploaded_resume f = Some (Returned [$"Jane Doe"])) as Hup
    by reflexivity.
  assert (pdf_text [$"Jane Doe"] ≠ []) as Htext by (vm_compute; discriminate).
  assert (∀ prompt, gemini (api_key f) prompt
                    = Returned $"[Technical|Hard|APIs] What is REST?") as Hret
    by (intros; reflexivity).
  assert (1 ≤ num_questions f) as Hn by (vm_compute; discriminate).
  destruct (X9_generation_success gemini f new_session [$"Jane Doe"]
              $"[Technical|Hard|APIs] What is REST?"
              Hkey Hph Hjd Hsk Hup Htext Hret Hn) as [Hst Hdisp].
  split; [|split; [|exact Hdisp]].
  - unfold passes_checks.
    split_and!; [exact Hkey|exact Hph|exact Hjd|exact Hsk|].
    exists [$"Jane Doe"]. split; [exact Hup|exact Htext].
  - rewrite Hst. vm_compute. reflexivity.
Defined.

Ltac show_messages :=
  unfold extract_text_from_pdf, mbind, UI_bind, mret, UI_ret, st_error,
    st_info, st_show;
  cbn [shown session fst snd]; rewrite <- ?app_assoc; reflexivity.

Lemma generate_clicked_failed_check f st :
  ¬ passes_checks f →
  ∃ msg rest, ∀ gemini,
    generate_clicked gemini f st =
      ((), {| shown := shown st ++ (Error, msg) :: rest;
              session := session st |}).
Proof.
  intros Hfail. unfold generate_clicked.
  destruct (decide (api_key f = [])) as [Hkey|Hkey].
  { rewrite (bool_decide_eq_true_2 _ Hkey). cbn [orb].
    eexists _, _. intros gemini. show_messages. }
  rewrite (bool_decide_eq_false_2 _ Hkey). cbn [orb].
  case_bool_decide as Hph.
  { eexists _, _. intros gemini. show_messages. }
  destruct (uploaded_resume f) as [uploaded|] eqn:Hup;
    [|eexists _, _; intros gemini; show_messages].
  case_bool_decide as Hjd; [eexists _, _; intros gemini; show_messages|].
  case_bool_decide as Hsk; [eexists _, _; intros gemini; show_messages|].
  destruct uploaded as [pages|e].
  - unfold extract_text_from_pdf.
    destruct (pdf_text pages) as [|c text] eqn:Htext.
    + eexists _, _. intros gemini. show_messages.
    + destruct Hfail. unfold passes_checks. split_and!; [done..|].
      exists pages. split; [done|]. by rewrite Htext.
  - eexists _, _. intros gemini. show_messages.
Qed.

(** X10. When the form fails a check (no usable API key, no resume, a blank
    job description or skill list, or a PDF that cannot be read or has no
    text), the handler does not use the Gemini client at all, shows an error
    first, and leaves the session state as it was. *)
Theorem X10_failed_check_stops_the_handler f st :
  ¬ passes_checks f →
  (∀ g1 g2, generate_clicked g1 f st = generate_clicked g2 f st)
  ∧ (∀ gemini, session (generate_clicked gemini f st).2 = session st)
  ∧ (∀ gemini, ∃ msg rest,
       shown (generate_clicked gemini f st).2
       = shown st ++ (Error, msg) :: rest).
Proof.
  intros (msg & rest & Hrun)%(generate_clicked_failed_check f st).
  split_and!.
  - intros g1 g2. by rewrite !Hrun.
  - intros gemini. by rewrite Hrun.
  - intros gemini. exists msg, rest. by rewrite Hrun.
Qed.

(** X10 on a form whose job description is blank, with questions already
    stored. *)
Lemma X10_witness :
  let f := {| api_key := $"key"; num_questions := 5;
              technical_focus := $"Balanced (50% Technical)";
              uploaded_resume := Some (Returned [$"Jane Doe"]);
              job_description := $"   ";
              skills_input := $"Python, SQL";
              experience_level := $"Mid Level (3-5 years)";
              interview_type := $"Coding Focus";
              company_info := [] |} in
  let before :=
    {| shown := [];
       session := {| generated_questions := Some (take 2 fallback_questions);
                     show_questions := Some true |} |} in
  ¬ passes_checks f
  ∧ session (generate_clicked (λ _ _, Returned []) f before).2
    = session before.
Proof.
  intros f before.
  assert (¬ passes_checks f) as Hfail.
  { intros (_ & _ & Hjd & _). apply Hjd. vm_compute. reflexivity. }
  split; [exact Hfail|].
  exact (proj1 (proj2 (X10_failed_check_stops_the_handler f before Hfail)) _).
Defined.

Lemma pdf_text_concat pages : pdf_text pages = concat pages.
Proof.
  unfold pdf_text. change (concat pages) with ([] ++ concat pages).
  generalize (@nil N) as acc. induction pages as [|p pages IH]; intros acc.
  - simpl. by rewrite app_nil_r.
  - simpl. by rewrite IH, app_assoc.
Qed.

(** X11. A resume that cannot be used, on a form that is otherwise in order.
    When reading the PDF raises, the handler shows the reading error with the
    exception's text and then the extraction error; when the PDF is read but
    no page has any text, it shows the extraction error alone.  In both cases
    the session state is left as it was. *)
Theorem X11_resume_without_text gemini f st :
  api_key f ≠ [] → api_key f ≠ $"YOUR_GEMINI_API_KEY_HERE" →
  strip (job_description f) ≠ [] → strip (skills_input f) ≠ [] →
  (∀ e, uploaded_resume f = Some (Raised e) →
     generate_clicked gemini f st =
       ((), {| shown := shown st ++
                 [(Error, $"Error reading PDF: " ++ e);
                  (Error, cross_mark :: $" Could not extract text from resume."
                            ++ $" Please ensure it's a readable PDF.")];
               session := session st |}))
  ∧ (∀ pages, uploaded_resume f = Some (Returned pages) →
       Forall (λ page, page = []) pages →
       generate_clicked gemini f st =
         ((), {| shown := shown st ++
                   [(Error, cross_mark
                              :: $" Could not extract text from resume."
                              ++ $" Please ensure it's a readable PDF.")];
                 session := session st |})).
Proof.
  intros Hkey Hph Hjd Hsk. split.
  - intros e Hup. unfold generate_clicked.
    rewrite !bool_decide_eq_false_2 by done. cbn [orb]. rewrite Hup.
    show_messages.
  - intros pages Hup Hempty. unfold generate_clicked.
    rewrite !bool_decide_eq_false_2 by done. cbn [orb]. rewrite Hup.
    assert (pdf_text pages = []) as Htext.
    { rewrite pdf_text_concat. clear Hup.
      induction Hempty as [|p ps -> _ IH]; [done|exact IH]. }
    unfold extract_text_from_pdf. rewrite Htext. show_messages.
Qed.

(** X11 on a PDF that raises and on a PDF of two blank pages. *)
Lemma X11_witness :
  let f uploaded :=
    {| api_key := $"key"; num_questions := 5;
       technical_focus := $"Balanced (50% Technical)";
       uploaded_resume := Some uploaded;
       job_description := $"Backend developer";
       skills_input := $"Python, SQL";
       experience_level := $"Mid Level (3-5 years)";
       interview_type := $"Coding Focus";
       company_info := [] |} in
  shown (generate_clicked (λ _ _, Returned [])
           (f (Raised $"EOF marker not found")) new_session).2 =
    [(Error, $"Error reading PDF: EOF marker not found");
     (Error, cross_mark :: $" Could not extract text from resume."
               ++ $" Please ensure it's a readable PDF.")]
  ∧ shown (generate_clicked (λ _ _, Returned [])
             (f (Returned [[]; []])) new_session).2 =
      [(Error, cross_mark :: $" Could not extract text from resume."
                 ++ $" Please ensure it's a readable PDF.")].
Proof.
  intros f.
  assert (∀ u, api_key (f u) ≠ []) as Hkey
    by (intros u; vm_compute; discriminate).
  assert (∀ u, api_key (f u) ≠ $"YOUR_GEMINI_API_KEY_HERE") as Hph
    by (intros u; vm_compute; discriminate).
  assert (∀ u, strip (job_description (f u)) ≠ []) as Hjd
    by (intros u; vm_compute; discriminate).
  assert (∀ u, strip (skills_input (f u)) ≠ []) as Hsk
    by (intros u; vm_compute; discriminate).
  split.
  - rewrite (proj1 (X11_resume_without_text _ (f (Raised _)) new_session
                      (Hkey _) (Hph _) (Hjd _) (Hsk _)) _ eq_refl).
    reflexivity.
  - rewrite (proj2 (X11_resume_without_text _ (f (Returned _)) new_session
                      (Hkey _) (Hph _) (Hjd _) (Hsk _)) [[]; []] eq_refl);
      [reflexivity|by repeat constructor].
Defined.

Lemma build_prompt_cap resume_text extra job_description skills n :
  2000 ≤ len resume_text →
  build_prompt (resume_text ++ extra) job_description skills n =
    build_prompt resume_text job_description skills n.
Proof.
  intros Hlen. unfold build_prompt.
  rewrite !slice_to_nonneg by lia.
  by rewrite take_app_le by (unfold len in Hlen; lia).
Qed.

(** X12. The prompt holds only the first 2000 characters of the resume text
    it is given, and the handler appends the interview context (experience
    level, interview type, technical focus, company) to the resume text
    before that cut.  So when the text extracted from the PDF has 2000
    characters or more, none of the four context fields has any effect on what
    the handler does. *)
Theorem X12_context_lost_after_2000_characters gemini f st pages
    experience_level' interview_type' technical_focus' company_info' :
  uploaded_resume f = Some (Returned pages) →
  2000 ≤ len (pdf_text pages) →
  generate_clicked gemini
    {| api_key := api_key f; num_questions := num_questions f;
       technical_focus := technical_focus';
       uploaded_resume := uploaded_resume f;
       job_description := job_description f;
       skills_input := skills_input f;
       experience_level := experience_level';
       interview_type := interview_type';
       company_info := company_info' |} st
  = generate_clicked gemini f st.
Proof.
  intros Hup Hlen. unfold generate_clicked.
  cbn [api_key num_questions technical_focus uploaded_resume job_description
       skills_input experience_level interview_type company_info].
  destruct (_ || _); [done|]. rewrite Hup.
  case_bool_decide; [done|]. case_bool_decide; [done|].
  unfold extract_text_from_pdf.
  destruct (pdf_text pages) as [|c text] eqn:Htext; [done|].
  unfold mbind, UI_bind, mret, UI_ret. cbv beta iota.
  unfold generate_questions_with_gemini.
  by rewrite !build_prompt_cap by done.
Qed.

(** X12 on a resume of 2000 characters: two forms that differ in all four
    context fields are handled alike. *)
Lemma X12_witness :
  let pages := [replicate 2000 (ch "a")] in
  let gemini := λ _ prompt : str, @Raised str prompt in
  let f := {| api_key := $"key"; num_questions := 5;
              technical_focus := $"Balanced (50% Technical)";
              uploaded_resume := Some (Returned pages);
              job_description := $"Backend developer";
              skills_input := $"Python, SQL";
              experience_level := $"Mid Level (3-5 years)";
              interview_type := $"Coding Focus";
              company_info := [] |} in
  let f' := {| api_key := $"key"; num_questions := 5;
               technical_focus := $"Technical Heavy (70% Technical)";
               uploaded_resume := Some (Returned pages);
               job_description := $"Backend developer";
               skills_input := $"Python, SQL";
               experience_level := $"Lead/Principal (10+ years)";
               interview_type := $"System Design Focus";
               company_info := $"Fintech startup" |} in
  uploaded_resume f = Some (Returned pages)
  ∧ 2000 ≤ len (pdf_text pages)
  ∧ generate_clicked gemini f' new_session
    = generate_clicked gemini f new_session.
Proof.
  intros pages gemini f f'.
  assert (2000 ≤ len (pdf_text pages)) as Hlen by (vm_compute; discriminate).
  split_and!; [reflexivity|exact Hlen|].
  exact (X12_context_lost_after_2000_characters gemini f new_session pages
           _ _ _ _ eq_refl Hlen).
Defined.

(** ** More on the filters and the metrics *)

Lemma apply_filters_filter questions difficulty_filter category_filter :
  apply_filters questions difficulty_filter category_filter =
    filter (λ q, Spec.selects difficulty_filter (difficulty q)
                 ∧ Spec.selects category_filter (category q)) questions.
Proof.
  unfold apply_filters, Spec.selects.
  case_bool_decide as Hd; case_bool_decide as Hc.
  - rewrite list_filter_filter. apply list_filter_iff. intros q. tauto.
  - apply list_filter_iff. intros q. tauto.
  - apply list_filter_iff. intros q. tauto.
  - symmetry. apply filter_all. intros q. tauto.
Qed.

Lemma filter_Forall {A} (P : A → Prop) `{!∀ x, Decision (P x)} (l : list A) :
  Forall P l → filter P l = l.
Proof.
  induction 1 as [|x l Hx _ IH]; [done|]. by rewrite filter_cons_True, IH.
Qed.

(** X13. The notice [Showing x of y questions] appears exactly when the
    filters hide something: if every stored question passes both selections
    the filtered list is the stored list and nothing is shown; otherwise the
    filtered list is strictly shorter and the notice carries both counts. *)
Theorem X13_filter_notice questions difficulty_filter category_filter st :
  let filtered := apply_filters questions difficulty_filter category_filter in
  let passes q := Spec.selects difficulty_filter (difficulty q)
                  ∧ Spec.selects category_filter (category q) in
  (Forall passes questions →
     filtered = questions
     ∧ show_filter_info questions filtered st = ((), st))
  ∧ (¬ Forall passes questions →
       len filtered < len questions
       ∧ show_filter_info questions filtered st =
           ((), {| shown := shown st ++
                     [(Info, $"Showing " ++ str_of_int (len filtered)
                               ++ $" of " ++ str_of_int (len questions)
                               ++ $" questions")];
                   session := session st |})).
Proof.
  intros filtered passes. subst filtered passes.
  rewrite apply_filters_filter. split.
  - intros Hall. rewrite filter_Forall by done.
    split; [done|]. unfold show_filter_info.
    rewrite bool_decide_eq_false_2; [done|]. intros Hne. by apply Hne.
  - intros Hnot. apply not_Forall_Exists, Exists_exists in Hnot.
    destruct Hnot as (q & Hq & Hnot).
    pose proof (length_filter_lt _ questions q Hq Hnot) as Hlt.
    match goal with |- len ?l < _ ∧ _ =>
      assert (len l < len questions) as Hlen by (unfold len; lia) end.
    split; [done|]. unfold show_filter_info.
    rewrite bool_decide_eq_true_2; [done|]. lia.
    Unshelve. all: apply _.
Qed.

(** X13 on the fallback list filtered to the hard questions. *)
Lemma X13_witness :
  ¬ Forall (λ q, Spec.selects $"Hard" (difficulty q)
                 ∧ Spec.selects $"All" (category q)) fallback_questions
  ∧ shown (show_filter_info fallback_questions
             (apply_filters fallback_questions $"Hard" $"All") fresh).2
    = [(Info, $"Showing 1 of 10 questions")].
Proof.
  assert (¬ Forall (λ q, Spec.selects $"Hard" (difficulty q)
                         ∧ Spec.selects $"All" (category q))
            fallback_questions) as Hnot.
  { intros Hall. apply (bool_decide_pack _) in Hall. vm_compute in Hall.
    exact Hall. }
  split; [exact Hnot|].
  rewrite (proj2 (proj2 (X13_filter_notice fallback_questions
                           $"Hard" $"All" fresh) Hnot)).
  vm_compute. reflexivity.
Defined.

(** X14. The two filters compose: filtering by difficulty and then by
    category is filtering by both, filtering twice by different pairs does
    not depend on the order, filtering again by the same pair changes
    nothing, and the pair ['All'], ['All'] keeps every question. *)
Theorem X14_filters_compose questions d c d' c' :
  apply_filters (apply_filters questions d $"All") $"All" c
    = apply_filters questions d c
  ∧ apply_filters (apply_filters questions d c) d' c'
    = apply_filters (apply_filters questions d' c') d c
  ∧ apply_filters (apply_filters questions d c) d c
    = apply_filters questions d c
  ∧ apply_filters questions $"All" $"All" = questions.
Proof.
  rewrite !apply_filters_filter, !list_filter_filter.
  split_and!; try (apply list_filter_iff; intros q; unfold Spec.selects; tauto).
  apply filter_all. intros q. unfold Spec.selects. tauto.
Qed.

Lemma category_names_differ :
  $"Technical" ≠ $"Behavioral" ∧ $"Technical" ≠ $"Experience"
  ∧ $"Behavioral" ≠ $"Experience" ∧ $"Technical" ≠ $"All"
  ∧ $"Behavioral" ≠ $"All" ∧ $"Experience" ≠ $"All".
Proof. split_and!; vm_compute; discriminate. Qed.

Lemma category_counts_le (qs : list InterviewQuestion) :
  (length (filter (λ q, category q = $"Technical") qs)
   + length (filter (λ q, category q = $"Behavioral") qs)
   + length (filter (λ q, category q = $"Experience") qs)
   ≤ length qs)%nat.
Proof.
  destruct category_names_differ as (Htb & Hte & Hbe & _).
  induction qs as [|q qs IH]; [done|].
  rewrite !filter_cons.
  repeat case_decide; cbn [length] in *; try lia; congruence.
Qed.

Lemma category_counts_eq (qs : list InterviewQuestion) :
  (length (filter (λ q, category q = $"Technical") qs)
   + length (filter (λ q, category q = $"Behavioral") qs)
   + length (filter (λ q, category q = $"Experience") qs)
   = length qs)%nat
  ↔ Forall (λ q, category q ∈ [$"Technical"; $"Behavioral"; $"Experience"])
      qs.
Proof.
  destruct category_names_differ as (Htb & Hte & Hbe & _).
  induction qs as [|q qs IH]; [done|].
  rewrite Forall_cons, <- IH, !filter_cons, !elem_of_cons, elem_of_nil.
  pose proof (category_counts_le qs) as Hle. clear IH.
  repeat case_decide; try congruence; cbn [length] in *;
    (split;
     [intros Heq; split; [first [tauto | exfalso; lia]|lia]
     |intros [[?|[?|[?|[]]]] Heq]; first [lia | congruence]]).
Qed.

(** X15. The three category metrics never add up to more than the total, and
    they add up to the total exactly when every stored question has one of
    the three categories [Technical], [Behavioral], [Experience]; a record
    with any other category, which the parser lets through, is counted in
    the total only.  Each metric is the number of questions that the category
    filter set to that category shows. *)
Theorem X15_category_metrics questions :
  technical_count questions + behavioral_count questions
    + experience_count questions ≤ len questions
  ∧ (technical_count questions + behavioral_count questions
       + experience_count questions = len questions
     ↔ Forall (λ q, category q ∈ [$"Technical"; $"Behavioral"; $"Experience"])
         questions)
  ∧ technical_count questions
    = len (apply_filters questions $"All" $"Technical")
  ∧ behavioral_count questions
    = len (apply_filters questions $"All" $"Behavioral")
  ∧ experience_count questions
    = len (apply_filters questions $"All" $"Experience").
Proof.
  destruct category_names_differ as (_ & _ & _ & Hta & Hba & Hea).
  pose proof (category_counts_le questions) as Hle.
  pose proof (category_counts_eq questions) as Heq.
  unfold technical_count, behavioral_count, experience_count, len.
  rewrite !apply_filters_filter.
  assert (∀ name, name ≠ $"All" →
            filter (λ q, category q = name) questions =
            filter (λ q, Spec.selects $"All" (difficulty q)
                         ∧ Spec.selects name (category q)) questions) as Hf.
  { intros name Hname. apply list_filter_iff. intros q.
    unfold Spec.selects. tauto. }
  rewrite <- !Hf by done. split_and!; try done; [lia|].
  rewrite <- Heq. lia.
Qed.

(** X16. The category selector offers a category exactly when some stored
    question has it, and choosing an offered category, with the difficulty
    left at ['All'], never gives an empty list. *)
Theorem X16_offered_category_shows_questions questions c :
  (c ∈ category_options questions ↔ ∃ q, q ∈ questions ∧ category q = c)
  ∧ (c ∈ category_options questions →
     apply_filters questions $"All" c ≠ []).
Proof.
  assert (c ∈ category_options questions
          ↔ ∃ q, q ∈ questions ∧ category q = c) as Hiff.
  { unfold category_options. rewrite elem_of_list_to_set, list_elem_of_fmap.
    split; intros (q & ? & ?); eauto. }
  split; [done|]. intros (q & Hq & Hc)%Hiff.
  rewrite apply_filters_filter. intros Hnil.
  apply (filter_nil_not_elem_of _ _ q Hnil); [|done].
  unfold Spec.selects. auto.
Qed.

(** X16 on the fallback list and the category [Behavioral]. *)
Lemma X16_witness :
  $"Behavioral" ∈ category_options fallback_questions
  ∧ apply_filters fallback_questions $"All" $"Behavioral" ≠ [].
Proof.
  assert ($"Behavioral" ∈ category_options fallback_questions) as Hin.
  { apply (proj1 (X16_offered_category_shows_questions _ _)).
    exists {| category := $"Behavioral";
              question :=
                $"How do you approach learning new technologies or skills?";
              difficulty := $"Easy"; focus_area := $"Learning Ability" |}.
    split; [|reflexivity].
    apply (bool_decide_unpack _). vm_compute. exact I. }
  split; [exact Hin|].
  exact (proj2 (X16_offered_category_shows_questions _ _) Hin).
Defined.

(** ** The resume preview *)

(** X17. The preview never holds more than 503 characters: a text of at most
    500 characters is shown whole, a longer one is cut to its first 500
    characters followed by three dots; in both cases the preview starts like
    the text. *)
Theorem X17_preview_is_bounded resume_text :
  len (preview_text resume_text) ≤ 503
  ∧ take 500 (preview_text resume_text) = take 500 resume_text
  ∧ (len resume_text ≤ 500 → preview_text resume_text = resume_text)
  ∧ (500 < len resume_text →
     preview_text resume_text = take 500 resume_text ++ $"...").
Proof.
  unfold preview_text, len. case_bool_decide as Hlong.
  - rewrite slice_to_nonneg by lia. change (Z.to_nat 500) with 500%nat.
    split_and!; [|..|lia|done].
    + rewrite length_app, length_take.
      change (length $"...") with 3%nat. lia.
    + rewrite take_app_le by (rewrite length_take; lia).
      rewrite take_take. f_equal.
  - split_and!; [lia|done|done|lia].
Qed.

(** ** The text exports *)

Lemma foldl_append {B} (f : str → B → str) (g : B → str) :
  (∀ acc x, f acc x = acc ++ g x) →
  ∀ l acc, foldl f acc l = acc ++ concat (g <$> l).
Proof.
  intros Hf. induction l as [|x l IH]; intros acc; simpl.
  - by rewrite app_nil_r.
  - by rewrite IH, Hf, <- app_assoc.
Qed.

(** X18. Both text exports list exactly the filtered questions, in order and
    numbered from 1 like the JSON export: the copy text is one block per
    question, and the study guide is its header, which states the number of
    filtered questions, followed by one block per question. *)
Theorem X18_text_exports filtered_questions :
  formatted_text filtered_questions =
    concat (imap (λ i q,
              $"Q" ++ str_of_int (1 + Z.of_nat i) ++ $": " ++ question q ++ nl
              ++ $"Category: " ++ category q
              ++ $" | Difficulty: " ++ difficulty q
              ++ $" | Focus: " ++ focus_area q ++ nl ++ nl)
            filtered_questions)
  ∧ questions_text filtered_questions =
      ($"INTERVIEW PREPARATION QUESTIONS" ++ nl
       ++ $"Generated: Today" ++ nl
       ++ $"Total Questions: " ++ str_of_int (len filtered_questions) ++ nl
       ++ replicate 60 (ch "=") ++ nl ++ nl)
      ++ concat (imap (λ i q,
                   $"QUESTION " ++ str_of_int (1 + Z.of_nat i) ++ $":" ++ nl
                   ++ question q ++ nl ++ nl
                   ++ $"Details: " ++ category q ++ $" | " ++ difficulty q
                   ++ $" | " ++ focus_area q ++ nl ++ nl
                   ++ $"PREPARATION NOTES:" ++ nl
                   ++ replicate 40 (ch "_") ++ nl ++ nl ++ nl
                   ++ replicate 60 (ch "=") ++ nl ++ nl)
                 filtered_questions).
Proof.
  unfold formatted_text, questions_text, enumerate. split.
  - rewrite (foldl_append _ (λ iq : Z * InterviewQuestion,
       $"Q" ++ str_of_int iq.1 ++ $": " ++ question iq.2 ++ nl
       ++ $"Category: " ++ category iq.2
       ++ $" | Difficulty: " ++ difficulty iq.2
       ++ $" | Focus: " ++ focus_area iq.2 ++ nl ++ nl)).
    + rewrite fmap_imap. reflexivity.
    + intros acc [i q]. cbv beta iota zeta. cbn [fst snd].
      rewrite <- !app_assoc. reflexivity.
  - rewrite (foldl_append _ (λ iq : Z * InterviewQuestion,
       $"QUESTION " ++ str_of_int iq.1 ++ $":" ++ nl
       ++ question iq.2 ++ nl ++ nl
       ++ $"Details: " ++ category iq.2 ++ $" | " ++ difficulty iq.2
       ++ $" | " ++ focus_area iq.2 ++ nl ++ nl
       ++ $"PREPARATION NOTES:" ++ nl
       ++ replicate 40 (ch "_") ++ nl ++ nl ++ nl
       ++ replicate 60 (ch "=") ++ nl ++ nl)).
    + rewrite fmap_imap, <- !app_assoc. reflexivity.
    + intros acc [i q]. cbv beta iota zeta. cbn [fst snd].
      rewrite <- !app_assoc. reflexivity.
Qed.

(** ** The session state from run to run *)

Lemma passes_checks_or_not f : passes_checks f ∨ ¬ passes_checks f.
Proof.
  unfold passes_checks.
  destruct (decide (api_key f = [])); [right; tauto|].
  destruct (decide (api_key f = $"YOUR_GEMINI_API_KEY_HERE"));
    [right; tauto|].
  destruct (decide (strip (job_description f) = [])); [right; tauto|].
  destruct (decide (strip (skills_input f) = [])); [right; tauto|].
  destruct (uploaded_resume f) as [[pages|e]|].
  - destruct (decide (pdf_text pages = [])) as [Hnil|Hne].
    + right. by intros (_ & _ & _ & _ & pages' & [= <-] & ?).
    + left. split_and!; [done..|]. by exists pages.
  - right. by intros (_ & _ & _ & _ & pages' & [=] & _).
  - right. by intros (_ & _ & _ & _ & pages' & [=] & _).
Qed.

Lemma generate_clicked_session gemini f st :
  session (generate_clicked gemini f st).2 = session st
  ∨ ∃ text st0,
      (parse_gemini_questions text (num_questions f) st0).1 ≠ []
      ∧ session (generate_clicked gemini f st).2 =
          {| generated_questions :=
               Some (parse_gemini_questions text (num_questions f) st0).1;
             show_questions := Some true |}.
Proof.
  destruct (passes_checks_or_not f) as [Hpass|Hfail].
  - destruct Hpass as (Hkey & Hph & Hjd & Hsk & pages & Hup & Htext).
    destruct (generate_clicked_checked gemini f st pages)
      as [resume_text ->]; [done..|].
    unfold generate_questions_with_gemini.
    destruct (gemini _ _) as [text|e].
    + assert (∀ k : list InterviewQuestion → UI (),
                (parse_gemini_questions text (num_questions f) ≫= k) st =
                k (parse_gemini_questions text (num_questions f) st).1
                  (parse_gemini_questions text (num_questions f) st).2)
        as Hbind.
      { intros k. unfold mbind, UI_bind.
        by destruct (parse_gemini_questions text _ st). }
      rewrite Hbind.
      destruct (decide ((parse_gemini_questions text (num_questions f) st).1
                        ≠ [])) as [Hne|Hnil].
      * right. exists text, st. split; [exact Hne|].
        by rewrite (bool_decide_eq_true_2 _ Hne).
      * left. rewrite (bool_decide_eq_false_2 _ Hnil).
        unfold st_error, st_show. cbn [snd session].
        by rewrite parse_gemini_questions_state.
    + left. reflexivity.
  - left. destruct (generate_clicked_failed_check f st Hfail)
      as (msg & rest & Hrun). by rewrite Hrun.
Qed.

Lemma init_session_state_ok st :
  session st = session new_session ∨ session_ok (session st) →
  session_ok (session (init_session_state st).2).
Proof.
  intros [Hnew|(questions & b & Hq & Hb & Hwf & Hshow)];
    unfold init_session_state; cbn [snd session].
  - rewrite Hnew. exists [], false. by split_and!.
  - rewrite Hq, Hb. by exists questions, b.
Qed.

Lemma init_session_state_fixed st :
  session_ok (session st) → (init_session_state st).2 = st.
Proof.
  intros (questions & b & Hq & Hb & _). unfold init_session_state.
  destruct st as [msgs [gq sq]]. cbn in *. by subst.
Qed.

Lemma run_script_ok ev st :
  session st = session new_session ∨ session_ok (session st) →
  session_ok (session (run_script ev st).2).
Proof.
  intros Hpre%init_session_state_ok. unfold run_script.
  unfold mbind at 1. unfold UI_bind at 1.
  destruct (init_session_state st) as [[] st1]. cbn [snd] in Hpre.
  destruct ev as [gemini f|d c|].
  - destruct (generate_clicked_session gemini f st1)
      as [->|(text & st0 & Hne & ->)]; [done|].
    eexists _, true. split_and!; [done..|by apply
      parse_gemini_questions_well_formed|done].
  - destruct (_ && _); [|done].
    unfold clear_questions, set_session, init_session_state, mbind, UI_bind.
    cbn. exists [], false. by split_and!.
  - done.
Qed.

(** X19. The session state between runs.  From a new browser session and
    after any sequence of runs of the script (at least one), whatever the
    user pressed and whatever the Gemini client answered or raised, both
    session keys are bound, every stored question is well formed, and a set
    show flag comes with at least one stored question: on that state the
    condition that guards the display block holds exactly when the show
    flag is set.  (Whether a given run reaches the display block is not
    stated here: a generate run that fails a check returns before it.) *)
Theorem X19_session_state_invariant evs ev :
  let s := session (run_all (evs ++ [ev]) new_session) in
  session_ok s
  ∧ (display_condition s = true ↔ show_questions s = Some true).
Proof.
  intros s.
  assert (session_ok s) as Hok.
  { subst s. unfold run_all. rewrite foldl_app. cbn [foldl].
    apply run_script_ok.
    induction evs as [|ev' evs IH] using rev_ind; [by left|].
    right. rewrite foldl_app. cbn [foldl]. by apply run_script_ok. }
  split; [exact Hok|].
  destruct Hok as (questions & b & Hq & Hb & _ & Hshow).
  unfold display_condition. rewrite Hq, Hb.
  destruct b; [|done]. destruct questions; [by destruct Hshow|done].
Qed.

(** X20. The clear button.  While questions are displayed and the filters
    let at least one through, pressing it leaves an empty list of questions
    and the show flag off, so nothing is displayed in the next run; when the
    filters hide every question the button is not there, and the stored
    questions stay. *)
Theorem X20_clear_button st questions d c :
  display_condition (session st) = true →
  generated_questions (session st) = Some questions →
  (apply_filters questions d c ≠ [] →
     session (run_script (Clear d c) st).2 =
       {| generated_questions := Some []; show_questions := Some false |}
     ∧ display_condition (session (run_script (Clear d c) st).2) = false)
  ∧ (apply_filters questions d c = [] →
       (run_script (Clear d c) st).2 = st).
Proof.
  intros Hdisp Hq.
  assert ((init_session_state st).2 = st) as Hinit.
  { unfold display_condition in Hdisp. rewrite Hq in Hdisp.
    unfold init_session_state. destruct st as [msgs [gq [[]|]]];
      cbn in *; by subst. }
  assert (run_script (Clear d c) st =
          if bool_decide (apply_filters questions d c ≠ [])
          then (clear_questions;; init_session_state) st else ((), st))
    as Hrun.
  { unfold run_script. unfold mbind at 1. unfold UI_bind at 1.
    destruct (init_session_state st) as [[] st1]. cbn [snd] in Hinit.
    subst st1. by rewrite Hdisp, Hq. }
  rewrite Hrun. split.
  - intros Hne. rewrite bool_decide_eq_true_2 by done. split; reflexivity.
  - intros Hnil. rewrite bool_decide_eq_false_2; [reflexivity|].
    intros Hne. by apply Hne.
Qed.

(** X20 on two stored questions, with the filters off and with a filter that
    hides both. *)
Lemma X20_witness :
  let st := {| shown := [];
               session :=
                 {| generated_questions := Some (take 2 fallback_questions);
                    show_questions := Some true |} |} in
  display_condition (session st) = true
  ∧ session (run_script (Clear $"All" $"All") st).2 =
      {| generated_questions := Some []; show_questions := Some false |}
  ∧ (run_script (Clear $"Hard" $"All") st).2 = st.
Proof.
  intros st.
  destruct (X20_clear_button st (take 2 fallback_questions) $"All" $"All"
              eq_refl eq_refl) as [Hclear _].
  destruct (X20_clear_button st (take 2 fallback_questions) $"Hard" $"All"
              eq_refl eq_refl) as [_ Hkeep].
  split_and!; [reflexivity| |].
  - apply Hclear. vm_compute. discriminate.
  - apply Hkeep. vm_compute. reflexivity.
Defined.

(** X17 on a text of 600 characters and on a short one. *)
Lemma X17_witness :
  500 < len (replicate 600 (ch "x"))
  ∧ preview_text (replicate 600 (ch "x")) = replicate 500 (ch "x") ++ $"..."
  ∧ len $"Jane Doe" ≤ 500
  ∧ preview_text $"Jane Doe" = $"Jane Doe".
Proof.
  assert (500 < len (replicate 600 (ch "x"))) as Hlong
    by (vm_compute; reflexivity).
  assert (len $"Jane Doe" ≤ 500) as Hshort by (vm_compute; discriminate).
  split_and!; [exact Hlong| |exact Hshort|].
  - rewrite (proj2 (proj2 (proj2 (X17_preview_is_bounded _))) Hlong).
    vm_compute. reflexivity.
  - exact (proj1 (proj2 (proj2 (X17_preview_is_bounded _))) Hshort).
Defined.

(** ** The target count and the text of a PDF *)

(** X21. Asking for fewer questions gives a prefix of what asking for more
    gives: for target counts [0 <= n <= m] the result for [n] is the first
    [n] records of the result for [m], on the same response. *)
Theorem X21_smaller_count_gives_a_prefix response_text n m st st' :
  0 ≤ n → n ≤ m →
  (parse_gemini_questions response_text n st).1 =
    take (Z.to_nat n) (parse_gemini_questions response_text m st').1.
Proof.
  intros Hn Hm.
  rewrite !parse_gemini_questions_value, !add_fallback_value.
  rewrite !truncate_nonneg by lia. rewrite take_take.
  replace (Z.to_nat n `min` Z.to_nat m)%nat with (Z.to_nat n) by lia.
  case_decide as Hk; [|done].
  rewrite !slice_to_nonneg by lia. rewrite !take_app, !take_take.
  f_equal. f_equal. unfold len. lia.
Qed.

(** X21 on a response with one valid line and the target counts 2 and 12. *)
Lemma X21_witness :
  0 ≤ 2 ∧ 2 ≤ 12
  ∧ (parse_gemini_questions $"[A|B|C] q" 2 fresh).1 =
      take 2 (parse_gemini_questions $"[A|B|C] q" 12 fresh).1.
Proof.
  split_and!; [lia|lia|].
  exact (X21_smaller_count_gives_a_prefix $"[A|B|C] q" 2 12 fresh fresh
           ltac:(lia) ltac:(lia)).
Defined.

(** X22. The text taken from a PDF that reads without error is the text of
    its pages glued together in page order, with nothing between two pages,
    and no message is shown; when reading raises, the result is [None] and
    one error carrying the exception's text is shown.  The session state is
    not touched either way. *)
Theorem X22_pdf_text_is_the_pages_glued pages e st :
  extract_text_from_pdf (Returned pages) st = (Some (concat pages), st)
  ∧ len (concat pages) = foldr (λ page total, len page + total) 0 pages
  ∧ extract_text_from_pdf (Raised e) st =
      (None, {| shown := shown st ++ [(Error, $"Error reading PDF: " ++ e)];
                session := session st |}).
Proof.
  split_and!.
  - unfold extract_text_from_pdf. by rewrite pdf_text_concat.
  - unfold len. induction pages as [|p ps IH]; [done|].
    cbn [concat foldr]. rewrite length_app. lia.
  - reflexivity.
Qed.
